(** * The inventory linker ([scripts/linkify_inventory.py])

    A shallow embedding of the script that turns the file bullets of
    WORKSPACE_INVENTORY.md into markdown links, and the properties of
    its line loop.

    Python values are modelled as follows.
    - A [str] is the list of its Unicode code points ([N]).
    - [dir_stack] is a Python list used as a stack: index 0 is the
      bottom, [dir_stack[-1]] the top, [append] adds at the end.
    - The two regular expressions are kept as patterns and run by a
      backtracking matcher with Python's greedy priorities.
    - [os.path] is the module of the host: [posixpath] or [ntpath].
    - The file system is a table from path strings to the kind of node
      found there; [os.path.exists] only asks whether there is one.
    - [print] appends one message to the list [stdout]. *)

From Stdlib Require Import String Ascii.
From Stdlib Require Import List NArith ZArith Bool Arith Lia Sorted.
Import ListNotations.

Set Implicit Arguments.

(** ** Strings *)

Definition char := N.
Definition str := list char.

Module Py.

(** Decoding of a UTF-8 literal, the counterpart of
    [open(..., encoding='utf-8')]; it lets the dash of the source be
    written as it is in the literals below. *)
Fixpoint utf8_decode (bs : list N) : str :=
  match bs with
  | [] => []
  | b0 :: r0 =>
      if (b0 <? 192)%N then b0 :: utf8_decode r0
      else
        match r0 with
        | [] => [b0]
        | b1 :: r1 =>
            if (b0 <? 224)%N
            then ((b0 - 192) * 64 + (b1 - 128))%N :: utf8_decode r1
            else
              match r1 with
              | [] => [b0; b1]
              | b2 :: r2 =>
                  if (b0 <? 240)%N
                  then ((b0 - 224) * 4096 + (b1 - 128) * 64 + (b2 - 128))%N
                         :: utf8_decode r2
                  else
                    match r2 with
                    | [] => [b0; b1; b2]
                    | b3 :: r3 =>
                        ((b0 - 240) * 262144 + (b1 - 128) * 4096
                         + (b2 - 128) * 64 + (b3 - 128))%N
                          :: utf8_decode r3
                    end
              end
        end
  end.

Definition lit (s : string) : str :=
  utf8_decode (map N_of_ascii (list_ascii_of_string s)).

Definition newline : char := 10%N.
Definition slash : char := 47%N.
Definition backslash : char := 92%N.
Definition colon : char := 58%N.
Definition star : char := 42%N.
Definition hyphen : char := 45%N.
Definition emdash : char := 8212%N.

(** [str.isspace] for one code point.  [str.strip], [str.lstrip] and the
    class [\s] of [re] on a [str] pattern all use this set. *)
Definition isspace (c : char) : bool :=
  ((9 <=? c) && (c <=? 13) || (28 <=? c) && (c <=? 32)
   || (c =? 133) || (c =? 160) || (c =? 5760)
   || (8192 <=? c) && (c <=? 8202)
   || (c =? 8232) || (c =? 8233) || (c =? 8239) || (c =? 8287)
   || (c =? 12288))%N.

Fixpoint dropwhile (p : char -> bool) (s : str) : str :=
  match s with
  | [] => []
  | c :: s' => if p c then dropwhile p s' else s
  end.

Definition lstrip (s : str) : str := dropwhile isspace s.
Definition rstrip (s : str) : str := rev (dropwhile isspace (rev s)).
Definition strip (s : str) : str := rstrip (lstrip s).

(** [s.rstrip(c)] for a one-character argument. *)
Definition rstrip_char (c : char) (s : str) : str :=
  rev (dropwhile (N.eqb c) (rev s)).

Fixpoint startswith (sub s : str) : bool :=
  match sub, s with
  | [], _ => true
  | _ :: _, [] => false
  | a :: sub', b :: s' => N.eqb a b && startswith sub' s'
  end.

Definition endswith (s suffix : str) : bool :=
  startswith (rev suffix) (rev s).

(** [s.find(sub)]: the lowest index where [sub] occurs, [-1] if none.
    [find_from] scans the rest of the string, [i] being the index
    reached. *)
Fixpoint find_from (sub s : str) (i : Z) : Z :=
  if startswith sub s then i
  else
    match s with
    | [] => (-1)%Z
    | _ :: s' => find_from sub s' (i + 1)%Z
    end.

Definition find (s sub : str) : Z := find_from sub s 0%Z.

(** [s.find(sub, start)]: a negative [start] counts from the end, and
    nothing is found from beyond the end. *)
Definition find_at (s sub : str) (start : Z) : Z :=
  let len := Z.of_nat (length s) in
  let start := if (start <? 0)%Z then Z.max 0 (start + len) else start in
  if (len <? start)%Z then (-1)%Z
  else find_from sub (skipn (Z.to_nat start) s) start.

(** Slice bounds: a negative bound counts from the end, and every bound
    is clamped to the string. *)
Definition clamp (len : nat) (k : Z) : nat :=
  let k' := if (k <? 0)%Z then Z.max 0 (k + Z.of_nat len) else k in
  Z.to_nat (Z.min (Z.of_nat len) k').

(** [s[:k]] and [s[k:]]. *)
Definition slice_to (s : str) (k : Z) : str := firstn (clamp (length s) k) s.
Definition slice_from (s : str) (k : Z) : str := skipn (clamp (length s) k) s.

(** [s.replace(old, new)] for one-character [old] and [new]. *)
Definition replace_char (old new : char) (s : str) : str :=
  map (fun c => if N.eqb c old then new else c) s.

Definition str_eqb (a b : str) : bool :=
  (length a =? length b) && startswith a b.

End Py.

(** ** Regular expressions

    The fragment of [re] the script uses: literals, an optional
    literal, a greedy repetition of a character class, and one capturing
    group around such a repetition. *)

Module Re.

Inductive atom : Type :=
| Lit (c : char)
| Opt (c : char)
| Plus (cls : char -> bool)
| Group (cls : char -> bool).

Definition pattern := list atom.

Fixpoint span (cls : char -> bool) (s : str) : nat :=
  match s with
  | c :: s' => if cls c then S (span cls s') else 0
  | [] => 0
  end.

(** The greedy choice: [n] repetitions first, then fewer, never none. *)
Fixpoint first_down {A : Type} (f : nat -> option A) (n : nat) : option A :=
  match n with
  | 0 => None
  | S m => match f n with
           | Some r => Some r
           | None => first_down f m
           end
  end.

(** [run pat s g] matches [pat] at the head of [s]; [g] is the text of
    group 1 so far.  The result is group 1 of the first match in
    backtracking order. *)
Fixpoint run (pat : pattern) (s : str) (g : str) : option str :=
  match pat with
  | [] => Some g
  | Lit c :: k =>
      match s with
      | x :: s' => if N.eqb x c then run k s' g else None
      | [] => None
      end
  | Opt c :: k =>
      let taken :=
        match s with
        | x :: s' => if N.eqb x c then run k s' g else None
        | [] => None
        end in
      match taken with
      | Some r => Some r
      | None => run k s g
      end
  | Plus cls :: k =>
      first_down (fun m => run k (skipn m s) g) (span cls s)
  | Group cls :: k =>
      first_down (fun m => run k (skipn m s) (firstn m s)) (span cls s)
  end.

(** [re.match(pat, s)] followed by [.group(1)]; the leading [^] of the
    script's patterns holds at the position [re.match] starts from. *)
Definition match_group1 (pat : pattern) (s : str) : option str :=
  run pat s [].

End Re.

(** ** [os.path]

    [os.path.join] of the two flavours (CPython 3.11, [Lib/posixpath.py]
    and [Lib/ntpath.py]), on [str] arguments.  [ntpath] compares drives
    through [str.lower] and [str.upper]; the Unicode case tables are
    not part of this development, so the two methods are taken as
    arguments. *)

Module OsPath.
Import Py.

Inductive os_name : Type := posix | nt.

(** [os.sep] *)
Definition sep (os : os_name) : char :=
  match os with
  | posix => slash
  | nt => backslash
  end.

Definition posix_step (path b : str) : str :=
  if startswith [slash] b then b
  else
    match path with
    | [] => path ++ b
    | _ :: _ =>
        if endswith path [slash] then path ++ b
        else path ++ [slash] ++ b
    end.

Definition posixpath_join (a : str) (p : list str) : str :=
  fold_left posix_step p a.

Section NtPath.
Variables str_lower str_upper : str -> str.

Definition unc_prefix : str := lit "\\?\UNC\".

Definition in_seps (c : char) : bool :=
  N.eqb c backslash || N.eqb c slash.

Definition nonempty (s : str) : bool :=
  match s with [] => false | _ :: _ => true end.

Definition splitdrive (p : str) : str * str :=
  if 2 <=? length p then
    let normp := replace_char slash backslash p in
    if str_eqb (slice_to normp 2) [backslash; backslash] then
      let start :=
        if str_eqb (str_upper (slice_to normp 8)) unc_prefix
        then 8%Z else 2%Z in
      let index := find_at normp [backslash] start in
      if (index =? -1)%Z then (p, [])
      else
        let index2 := find_at normp [backslash] (index + 1)%Z in
        if (index2 =? -1)%Z then (p, [])
        else (slice_to p index2, slice_from p index2)
    else if str_eqb (slice_to (slice_from normp 1) 1) [colon]
    then (slice_to p 2, slice_from p 2)
    else ([], p)
  else ([], p).

(** One round of the loop over [paths]; the pair is
    [(result_drive, result_path)]. *)
Definition nt_step (acc : str * str) (p : str) : str * str :=
  let '(result_drive, result_path) := acc in
  let '(p_drive, p_path) := splitdrive p in
  if match p_path with c :: _ => in_seps c | [] => false end then
    (if nonempty p_drive || negb (nonempty result_drive)
     then p_drive else result_drive,
     p_path)
  else
    let other_drive :=
      nonempty p_drive && negb (str_eqb p_drive result_drive) in
    if other_drive
       && negb (str_eqb (str_lower p_drive) (str_lower result_drive))
    then (p_drive, p_path)
    else
      let result_drive := if other_drive then p_drive else result_drive in
      let result_path :=
        if nonempty result_path
           && negb (in_seps (last result_path slash))
        then result_path ++ [backslash] else result_path in
      (result_drive, result_path ++ p_path).

Definition ntpath_join (path : str) (paths : list str) : str :=
  let '(result_drive, result_path) :=
    fold_left nt_step paths (splitdrive path) in
  if match result_path with c :: _ => negb (in_seps c) | [] => false end
     && nonempty result_drive
     && negb (str_eqb (slice_from result_drive (-1)) [colon])
  then result_drive ++ [backslash] ++ result_path
  else result_drive ++ result_path.

Definition join (os : os_name) : str -> list str -> str :=
  match os with
  | posix => posixpath_join
  | nt => ntpath_join
  end.

End NtPath.

(** What [os.path.exists] can find at a path. *)
Inductive node : Type := RegularFile | Directory.

Definition filesystem := str -> option node.

Definition exists_ (fs : filesystem) (path : str) : bool :=
  match fs path with
  | Some _ => true
  | None => false
  end.

End OsPath.

(** ** The script *)

Module Linkify.
Import Py Re OsPath.

Definition inventory_path : str :=
  lit "C:\Users\tom7s\Desktopp\Claude_Folder_2\Date_Program\WORKSPACE_INVENTORY.md".

Definition script_root_dir : str :=
  lit "C:\Users\tom7s\Desktopp\Claude_Folder_2\Date_Program".

(** [r'^-\s+\*\*([^\*]+)/?\*\*'] *)
Definition dir_re : pattern :=
  [Lit hyphen; Plus isspace; Lit star; Lit star;
   Group (fun c => negb (N.eqb c star)); Opt slash; Lit star; Lit star].

(** [r'^-\s+([^\s]+)\s+—'] *)
Definition file_re : pattern :=
  [Lit hyphen; Plus isspace; Group (fun c => negb (isspace c));
   Plus isspace; Lit emdash].

(** An element of [dir_stack]: [(indent_level, directory_name)]. *)
Abbreviation entry := (nat * str)%type.

Record state : Type := mkState {
  dir_stack : list entry;
  new_lines : list str;
  stdout : list str
}.

Definition initial : state :=
  {| dir_stack := []; new_lines := []; stdout := [] |}.

(** [len(line) - len(line.lstrip())] *)
Definition indent_of (line : str) : nat :=
  length line - length (lstrip line).

(** [while dir_stack and dir_stack[-1][0] >= indent: dir_stack.pop()].
    Every round removes one entry, so [length dir_stack] rounds are
    enough: the loop ends on its test ([pop_deeper_spec]). *)
Fixpoint pop_loop (rounds indent : nat) (stack : list entry) : list entry :=
  match rounds with
  | 0 => stack
  | S rounds' =>
      match stack with
      | [] => stack
      | _ :: _ =>
          if indent <=? fst (last stack (0, []))
          then pop_loop rounds' indent (removelast stack)
          else stack
      end
  end.

Definition pop_deeper (indent : nat) (stack : list entry) : list entry :=
  pop_loop (length stack) indent stack.

Section Run.
Variable os : os_name.
Variables str_lower str_upper : str -> str.
Variable fs : filesystem.
Variable root_dir : str.

Definition os_path_join : str -> list str -> str :=
  join str_lower str_upper os.

(** [os.path.join] of the names in [current_path_parts], then [filename] *)
Definition join_parts (current_path_parts : list str) (filename : str) : str :=
  match current_path_parts with
  | [] => os_path_join filename []
  | a :: p => os_path_join a (p ++ [filename])
  end.

Definition link (filename rel_path_fwd : str) : str :=
  lit "[" ++ filename ++ lit "](" ++ rel_path_fwd ++ lit ")".

Definition not_found (full_path : str) : str :=
  lit "File not found: " ++ full_path.

(** The body of [for line in lines]. *)
Definition loop_body (s : state) (line : str) : state :=
  let original_line := line in
  let indent := indent_of line in
  let stripped := strip line in
  match match_group1 dir_re stripped with
  | Some group1 =>
      let dirname := rstrip_char slash group1 in
      let stack := pop_deeper indent (dir_stack s) in
      {| dir_stack := stack ++ [(indent, dirname)];
         new_lines := new_lines s ++ [original_line];
         stdout := stdout s |}
  | None =>
      match match_group1 file_re stripped with
      | Some filename =>
          let stack := pop_deeper indent (dir_stack s) in
          let current_path_parts := map snd stack in
          let relative_path := join_parts current_path_parts filename in
          let full_path := os_path_join root_dir [relative_path] in
          if exists_ fs full_path then
            let rel_path_fwd := replace_char backslash slash relative_path in
            let prefix := slice_to line (find line filename) in
            let suffix :=
              slice_from line
                (find line filename + Z.of_nat (length filename))%Z in
            let new_line := prefix ++ link filename rel_path_fwd ++ suffix in
            {| dir_stack := stack;
               new_lines := new_lines s ++ [new_line];
               stdout := stdout s |}
          else
            {| dir_stack := stack;
               new_lines := new_lines s ++ [original_line];
               stdout := stdout s ++ [not_found full_path] |}
      | None =>
          {| dir_stack := dir_stack s;
             new_lines := new_lines s ++ [original_line];
             stdout := stdout s |}
      end
  end.

Definition run_from (s : state) (lines : list str) : state :=
  fold_left loop_body lines s.

Definition complete : str := lit "Inventory processing complete.".

(** The script from [readlines] to the last [print]: [new_lines] is
    what [writelines] puts back in the inventory. *)
Definition main (lines : list str) : state :=
  let s := run_from initial lines in
  {| dir_stack := dir_stack s;
     new_lines := new_lines s;
     stdout := stdout s ++ [complete] |}.

End Run.

End Linkify.


(** ** Reading the loop

    Names for what the loop computes on one line, used to state the
    properties below. *)

Module Reading.
Import Py Re OsPath Linkify.

Definition dir_match (line : str) : option str :=
  match_group1 dir_re (strip line).

Definition file_match (line : str) : option str :=
  match_group1 file_re (strip line).

(** The three cases of the loop body, in the order it tests them. *)
Inductive shape : Type :=
| DirLine (dirname : str)
| FileLine (filename : str)
| Other.

Definition classify (line : str) : shape :=
  match dir_match line with
  | Some group1 => DirLine (rstrip_char slash group1)
  | None =>
      match file_match line with
      | Some filename => FileLine filename
      | None => Other
      end
  end.

(** Levels grow strictly from the bottom of the stack to its top. *)
Definition increasing (stack : list entry) : Prop :=
  StronglySorted lt (map fst stack).

(** Every entry is strictly shallower than [indent]. *)
Definition shallower (indent : nat) (stack : list entry) : Prop :=
  Forall (fun e => fst e < indent) stack.

(** What one line does to the stack; the file system plays no part. *)
Definition stack_step (stack : list entry) (line : str) : list entry :=
  match classify line with
  | DirLine dirname =>
      pop_deeper (indent_of line) stack ++ [(indent_of line, dirname)]
  | FileLine _ => pop_deeper (indent_of line) stack
  | Other => stack
  end.

Definition stack_after (stack : list entry) (lines : list str) : list entry :=
  fold_left stack_step lines stack.

(** [current_path_parts] on a file line met with [stack]. *)
Definition path_parts (stack : list entry) (line : str) : list str :=
  map snd (pop_deeper (indent_of line) stack).

Section Paths.
Variable os : os_name.
Variables str_lower str_upper : str -> str.
Variable root_dir : str.

(** [relative_path] and [full_path] on a file line met with [stack]. *)
Definition relative_path (stack : list entry) (line filename : str) : str :=
  join_parts os str_lower str_upper (path_parts stack line) filename.

Definition candidate (stack : list entry) (line filename : str) : str :=
  os_path_join os str_lower str_upper root_dir
    [relative_path stack line filename].

End Paths.

(** [line] is no bullet, or a bullet indented deeper than [level]. *)
Definition inside_of (level : nat) (line : str) : Prop :=
  match classify line with
  | Other => True
  | DirLine _ | FileLine _ => level < indent_of line
  end.

(** [e] was pushed by a directory line of [lines]. *)
Definition pushed_by (lines : list str) (e : entry) : Prop :=
  exists line,
    In line lines /\ classify line = DirLine (snd e)
    /\ indent_of line = fst e.

End Reading.

(** ** Inventories and file systems for the examples *)

Module Samples.
Import Py OsPath Linkify.

(** A line of the inventory with its line end. *)
Definition ln (s : string) : str := lit s ++ [newline].

(** [str.lower] and [str.upper] on strings whose only cased characters
    are ASCII letters, as in all the examples. *)
Definition lower_ascii (s : str) : str :=
  map (fun c => if ((65 <=? c) && (c <=? 90))%N then (c + 32)%N else c) s.

Definition upper_ascii (s : str) : str :=
  map (fun c => if ((97 <=? c) && (c <=? 122))%N then (c - 32)%N else c) s.

(** A file system with one node. *)
Definition only (path : str) (n : node) : filesystem :=
  fun p => if str_eqb p path then Some n else None.

(** [root/core/models/Order.java], written with the separator of [os]. *)
Definition order_java (os : os_name) : str :=
  lit "root" ++ [sep os] ++ lit "core" ++ [sep os] ++ lit "models"
  ++ [sep os] ++ lit "Order.java".

Definition nothing : filesystem := fun _ => None.

Definition nested : list str :=
  [ln "- **core/**"; ln "  - **models/**"; ln "    - Order.java — entity"].

Definition nested_linked : list str :=
  [ln "- **core/**"; ln "  - **models/**";
   ln "    - [Order.java](core/models/Order.java) — entity"].

Definition siblings : list str :=
  [ln "- **api/**"; ln "- **core/**"; ln "- README.md — overview"].

Definition with_notes : list str :=
  [ln "- **core/**"; ln "  - **models/**"; ln "Notes on the layout"].

End Samples.

(** ** The inventory file *)

Module Files.
Import Py OsPath Linkify.

Definition carriage_return : char := 13%N.

(** The file is opened with the default [newline], so the text layer
    reads with universal newlines: a carriage return followed by a
    newline, and a carriage return alone, come out as one newline.
    [raw] is the decoded content of the file. *)
Fixpoint universal (raw : str) : str :=
  match raw with
  | [] => []
  | c :: rest =>
      if N.eqb c carriage_return then
        newline ::
        match rest with
        | [] => []
        | d :: rest' =>
            if N.eqb d newline then universal rest' else universal rest
        end
      else c :: universal rest
  end.

(** The lines of a text in order, each with its newline; a last line
    without one is kept as it is. *)
Fixpoint split_lines (text : str) : list str :=
  match text with
  | [] => []
  | c :: rest =>
      if N.eqb c newline then [c] :: split_lines rest
      else
        match split_lines rest with
        | [] => [[c]]
        | line :: lines => (c :: line) :: lines
        end
  end.

(** [f.readlines()] on the file opened by
    [open(inventory_path, 'r', encoding='utf-8')]. *)
Definition readlines (raw : str) : list str :=
  split_lines (universal raw).

(** [os.linesep] *)
Definition linesep (os : os_name) : str :=
  match os with
  | posix => [newline]
  | nt => [carriage_return; newline]
  end.

(** Writing through the default [newline]: every newline written
    becomes [os.linesep]. *)
Definition to_linesep (os : os_name) (text : str) : str :=
  flat_map (fun c => if N.eqb c newline then linesep os else [c]) text.

(** [f.writelines(new_lines)] on the file opened by
    [open(inventory_path, 'w', encoding='utf-8')]: the decoded content
    of the file afterwards. *)
Definition writelines (os : os_name) (lines : list str) : str :=
  to_linesep os (concat lines).

(** A line that ends in its only newline, and one without any. *)
Definition terminated (line : str) : Prop :=
  exists body, line = body ++ [newline] /\ ~ In newline body.

Definition unterminated (line : str) : Prop :=
  line <> [] /\ ~ In newline line.

(** Lines as [split_lines] returns them: all terminated, but for the
    last one, which may lack its line end. *)
Fixpoint file_lines (lines : list str) : Prop :=
  match lines with
  | [] => True
  | line :: rest =>
      match rest with
      | [] => terminated line \/ unterminated line
      | _ :: _ => terminated line /\ file_lines rest
      end
  end.

(** No line has a carriage return in it. *)
Definition no_returns (lines : list str) : Prop :=
  Forall (fun line => ~ In carriage_return line) lines.

(** No name on the stack has the character [c] in it. *)
Definition without (c : char) (stack : list entry) : Prop :=
  Forall (fun e => ~ In c (snd e)) stack.

Section Script.
Variable os : os_name.
Variables str_lower str_upper : str -> str.
Variable fs : filesystem.
Variable root_dir : str.

(** The script from the content of the file before to its content
    after. *)
Definition rewritten (raw : str) : str :=
  writelines os
    (new_lines (main os str_lower str_upper fs root_dir (readlines raw))).

End Script.

End Files.

(** ** Path components *)

Module Components.
Import Py.

(** A component with no separator and no drive in it. *)
Definition plain (p : str) : Prop :=
  p <> [] /\ ~ In slash p /\ ~ In backslash p /\ ~ In colon p.

(** [a], then every further part behind a separator. *)
Definition separated (sep : char) (a : str) (parts : list str) : str :=
  a ++ concat (map (fun p => sep :: p) parts).

(** The parts of [os.path.join] in a file line: the names, then the
    token. *)
Definition joined (sep : char) (names : list str) (filename : str) : str :=
  match names with
  | [] => filename
  | a :: p => separated sep a (p ++ [filename])
  end.

End Components.

(** ** The edges of a string *)

Module Edges.
Import Py.

(** The first character of [s], if any, is no white space. *)
Definition starts_dark (s : str) : Prop :=
  match s with [] => True | c :: _ => isspace c = false end.

(** So for the last one. *)
Definition ends_dark (s : str) : Prop :=
  forall r c, s = r ++ [c] -> isspace c = false.

End Edges.

(** * Properties *)

Import Py Re OsPath Linkify Reading.

(** ** Strings *)

Section StringFacts.

Lemma eqb_char_true (a b : char) : N.eqb a b = true -> a = b.
Proof. apply N.eqb_eq. Qed.

Lemma startswith_app (sub rest : str) : startswith sub (sub ++ rest) = true.
Proof.
  induction sub as [|a sub IH]; simpl; [reflexivity|].
  now rewrite N.eqb_refl, IH.
Qed.

Lemma startswith_inv (sub s : str) :
  startswith sub s = true -> s = sub ++ skipn (length sub) s.
Proof.
  revert s; induction sub as [|a sub IH]; intros [|b s]; simpl;
    try reflexivity; try discriminate.
  intros H. apply andb_prop in H as [Hab Hrest].
  apply N.eqb_eq in Hab. subst b. f_equal. now apply IH.
Qed.

Lemma str_eqb_eq (a b : str) : str_eqb a b = true <-> a = b.
Proof.
  unfold str_eqb. split.
  - intros H. apply andb_prop in H as [Hlen Hpre].
    apply Nat.eqb_eq in Hlen. apply startswith_inv in Hpre.
    rewrite Hlen, skipn_all in Hpre. now rewrite app_nil_r in Hpre.
  - intros ->. rewrite Nat.eqb_refl. simpl.
    rewrite <- (app_nil_r b) at 2. apply startswith_app.
Qed.

(** [find_from] returns the first position where [sub] starts. *)
Lemma find_from_found (sub : str) :
  forall (before after : str) (i : Z),
    exists k : nat,
      find_from sub (before ++ sub ++ after) i = (i + Z.of_nat k)%Z
      /\ k <= length before
      /\ startswith sub (skipn k (before ++ sub ++ after)) = true
      /\ (forall j, j < k ->
            startswith sub (skipn j (before ++ sub ++ after)) = false).
Proof.
  induction before as [|c before IH]; intros after i.
  - exists 0. simpl app.
    assert (Hs : startswith sub (sub ++ after) = true)
      by apply startswith_app.
    repeat split.
    + destruct (sub ++ after); simpl in *; rewrite Hs; lia.
    + simpl; lia.
    + exact Hs.
    + intros j Hj; lia.
  - destruct (startswith sub ((c :: before) ++ sub ++ after)) eqn:Hs.
    + exists 0. repeat split.
      * simpl app in *. simpl. rewrite Hs. lia.
      * simpl; lia.
      * exact Hs.
      * intros j Hj; lia.
    + destruct (IH after (i + 1)%Z) as (k & Hk & Hle & Hat & Hmin).
      exists (S k). repeat split.
      * simpl app in *. simpl find_from. rewrite Hs, Hk. lia.
      * simpl; lia.
      * exact Hat.
      * intros [|j] Hj; [exact Hs|]. apply Hmin. lia.
Qed.

Lemma clamp_inside (len k : nat) :
  k <= len -> clamp len (Z.of_nat k) = k.
Proof.
  intros H. unfold clamp.
  destruct (Z.ltb_spec (Z.of_nat k) 0); lia.
Qed.

Lemma slice_to_inside (s : str) (k : nat) :
  k <= length s -> slice_to s (Z.of_nat k) = firstn k s.
Proof. intros H. unfold slice_to. now rewrite clamp_inside. Qed.

Lemma slice_from_inside (s : str) (k : nat) :
  k <= length s -> slice_from s (Z.of_nat k) = skipn k s.
Proof. intros H. unfold slice_from. now rewrite clamp_inside. Qed.

Lemma slice_to_from (s : str) (k : Z) : slice_to s k ++ slice_from s k = s.
Proof. apply firstn_skipn. Qed.

Lemma dropwhile_suffix (p : char -> bool) (s : str) :
  exists dropped, s = dropped ++ dropwhile p s
                  /\ forallb p dropped = true.
Proof.
  induction s as [|c s (d & Hd & Hall)]; simpl.
  - now exists [].
  - destruct (p c) eqn:Hc.
    + exists (c :: d). simpl. rewrite Hc, Hall. split; [now f_equal|reflexivity].
    + now exists [].
Qed.

Lemma dropwhile_head (p : char -> bool) (s : str) :
  match dropwhile p s with
  | [] => True
  | c :: _ => p c = false
  end.
Proof.
  induction s as [|c s IH]; simpl; [exact I|].
  destruct (p c) eqn:Hc; [exact IH|exact Hc].
Qed.

(** A stripped line sits inside the raw line. *)
Lemma strip_inside (line : str) :
  exists lead trail,
    line = lead ++ strip line ++ trail /\ forallb isspace lead = true.
Proof.
  unfold strip, rstrip, lstrip.
  destruct (dropwhile_suffix isspace line) as (lead & Hlead & Hspace).
  destruct (dropwhile_suffix isspace (rev (dropwhile isspace line)))
    as (t & Ht & _).
  exists lead, (rev t). split; [|exact Hspace].
  rewrite <- rev_app_distr, <- Ht, rev_involutive. exact Hlead.
Qed.

Lemma replace_char_gone (old new : char) (s : str) :
  old <> new -> ~ In old (replace_char old new s).
Proof.
  intros Hne Hin. unfold replace_char in Hin.
  apply in_map_iff in Hin as (c & Hc & _).
  destruct (N.eqb_spec c old); congruence.
Qed.

Lemma replace_char_length (old new : char) (s : str) :
  length (replace_char old new s) = length s.
Proof. apply length_map. Qed.

Lemma replace_char_id (old new : char) (s : str) :
  ~ In old s -> replace_char old new s = s.
Proof.
  induction s as [|c s IH]; simpl; intros H; [reflexivity|].
  destruct (N.eqb_spec c old) as [->|_]; [tauto|].
  f_equal. apply IH. tauto.
Qed.

End StringFacts.

(** ** The matcher *)

Section MatcherFacts.

Lemma first_down_some (A : Type) (f : nat -> option A) (n : nat) (r : A) :
  first_down f n = Some r ->
  exists m, 1 <= m <= n /\ f m = Some r.
Proof.
  induction n as [|n IH]; simpl; [discriminate|].
  destruct (f (S n)) eqn:Hf.
  - intros [= ->]. exists (S n). split; [lia|exact Hf].
  - intros H. destruct (IH H) as (m & Hm & Hfm).
    exists m. split; [lia|exact Hfm].
Qed.

Lemma span_firstn (cls : char -> bool) (s : str) (m : nat) :
  m <= span cls s ->
  forallb cls (firstn m s) = true /\ length (firstn m s) = m.
Proof.
  revert m; induction s as [|c s IH]; intros m; simpl.
  - intros H. assert (m = 0) by lia. subst. now split.
  - destruct (cls c) eqn:Hc.
    + destruct m as [|m]; [now split|]. intros H. simpl. rewrite Hc.
      destruct (IH m) as [Hall Hlen]; [lia|]. rewrite Hall, Hlen. now split.
    + intros H. assert (m = 0) by lia. subst. now split.
Qed.

(** What a match of the file pattern says about the stripped line: the
    bullet, white space, the captured token (not empty, free of white
    space), white space, the dash. *)
Lemma file_re_shape (s filename : str) :
  match_group1 file_re s = Some filename ->
  exists ws1 ws2 rest,
    s = hyphen :: ws1 ++ filename ++ ws2 ++ emdash :: rest
    /\ ws1 <> [] /\ forallb isspace ws1 = true
    /\ filename <> []
    /\ forallb (fun c => negb (isspace c)) filename = true
    /\ ws2 <> [] /\ forallb isspace ws2 = true.
Proof.
  unfold match_group1, file_re. destruct s as [|x s]; simpl; [discriminate|].
  destruct (N.eqb_spec x hyphen) as [->|]; [|discriminate].
  intros H.
  apply first_down_some in H as (m1 & Hm1 & H).
  apply first_down_some in H as (m2 & Hm2 & H).
  apply first_down_some in H as (m3 & Hm3 & H).
  destruct (skipn m3 (skipn m2 (skipn m1 s))) as [|y rest] eqn:Hrest;
    [discriminate|].
  destruct (N.eqb_spec y emdash) as [->|]; [|discriminate].
  injection H as H.
  destruct (span_firstn isspace s (m:=m1)) as [Ha1 Hl1]; [lia|].
  destruct (span_firstn (fun c => negb (isspace c)) (skipn m1 s) (m:=m2))
    as [Ha2 Hl2]; [lia|].
  destruct (span_firstn isspace (skipn m2 (skipn m1 s)) (m:=m3))
    as [Ha3 Hl3]; [lia|].
  exists (firstn m1 s), (firstn m3 (skipn m2 (skipn m1 s))), rest.
  subst filename. rewrite <- Hrest.
  rewrite (firstn_skipn m3), (firstn_skipn m2), (firstn_skipn m1).
  repeat split; try assumption.
  - intros E. rewrite E in Hl1. simpl in Hl1. lia.
  - intros E. rewrite E in Hl2. simpl in Hl2. lia.
  - intros E. rewrite E in Hl3. simpl in Hl3. lia.
Qed.

(** The token of a file line occurs in the raw line. *)
Lemma file_match_occurs (line filename : str) :
  match_group1 file_re (strip line) = Some filename ->
  exists before after, line = before ++ filename ++ after.
Proof.
  intros H. apply file_re_shape in H as (ws1 & ws2 & rest & Hs & _).
  destruct (strip_inside line) as (lead & trail & Hline & _).
  rewrite Hs in Hline.
  exists (lead ++ hyphen :: ws1), (ws2 ++ emdash :: rest ++ trail).
  rewrite Hline. simpl. repeat rewrite <- app_assoc. simpl.
  repeat rewrite <- app_assoc. reflexivity.
Qed.

End MatcherFacts.

(** ** The stack *)

Section StackFacts.

Lemma sorted_app (a b : list nat) :
  StronglySorted lt (a ++ b) <->
  StronglySorted lt a /\ StronglySorted lt b
  /\ (forall x y, In x a -> In y b -> x < y).
Proof.
  induction a as [|n a IH]; simpl.
  - split.
    + intros H. repeat split; [constructor|exact H|intros x y []].
    + intros (_ & H & _). exact H.
  - split.
    + intros H. inversion H as [|? ? Hs Hall]; subst.
      apply IH in Hs as (Ha & Hb & Hab).
      rewrite Forall_app in Hall. destruct Hall as [Hna Hnb].
      repeat split; [now constructor|exact Hb|].
      intros x y [<-|Hx] Hy.
      * rewrite Forall_forall in Hnb. now apply Hnb.
      * now apply Hab.
    + intros (Ha & Hb & Hab). inversion Ha as [|? ? Hs Hall]; subst.
      constructor.
      * apply IH. repeat split; [exact Hs|exact Hb|].
        intros x y Hx Hy. apply Hab; [now right|exact Hy].
      * rewrite Forall_app. split; [exact Hall|].
        rewrite Forall_forall. intros y Hy. apply Hab; [now left|exact Hy].
Qed.

Lemma increasing_nil : increasing [].
Proof. constructor. Qed.

Lemma increasing_app (a b : list entry) :
  increasing (a ++ b) <->
  increasing a /\ increasing b
  /\ (forall x y, In x a -> In y b -> fst x < fst y).
Proof.
  unfold increasing. rewrite map_app, sorted_app.
  split; intros (Ha & Hb & Hab); repeat split; try assumption.
  - intros x y Hx Hy. apply Hab; now apply in_map.
  - intros x y Hx Hy.
    apply in_map_iff in Hx as (ex & <- & Hx).
    apply in_map_iff in Hy as (ey & <- & Hy). now apply Hab.
Qed.

Lemma increasing_push (stack : list entry) (indent : nat) (name : str) :
  increasing stack -> shallower indent stack ->
  increasing (stack ++ [(indent, name)]).
Proof.
  intros Hinc Hsh. apply increasing_app. repeat split.
  - exact Hinc.
  - repeat constructor.
  - intros x y Hx [<-|[]]. unfold shallower in Hsh.
    rewrite Forall_forall in Hsh. now apply Hsh.
Qed.

(** Below an entry of an increasing stack everything is shallower. *)
Lemma increasing_below_top (stack : list entry) (top : entry) :
  increasing (stack ++ [top]) -> shallower (fst top) stack.
Proof.
  intros H. apply increasing_app in H as (_ & _ & H).
  apply Forall_forall. intros x Hx. apply H; [exact Hx|now left].
Qed.

Lemma shallower_weaken (i j : nat) (stack : list entry) :
  i <= j -> shallower i stack -> shallower j stack.
Proof.
  intros Hij H. eapply Forall_impl; [|exact H]. simpl. intros e He. lia.
Qed.

(** The loop on a stack seen from its top: one test, then the loop
    again on the rest.  The rounds never run out before the test
    fails. *)
Lemma pop_loop_top (indent rounds : nat) (below : list entry) (top : entry) :
  pop_loop (S rounds) indent (below ++ [top]) =
  if indent <=? fst top then pop_loop rounds indent below
  else below ++ [top].
Proof.
  simpl. destruct (below ++ [top]) as [|e0 rest] eqn:Hstack.
  - destruct below; discriminate.
  - rewrite <- Hstack, last_last, removelast_last. reflexivity.
Qed.

Lemma pop_deeper_nil (indent : nat) : pop_deeper indent [] = [].
Proof. reflexivity. Qed.

Lemma pop_deeper_top (indent : nat) (below : list entry) (top : entry) :
  pop_deeper indent (below ++ [top]) =
  if indent <=? fst top then pop_deeper indent below else below ++ [top].
Proof.
  unfold pop_deeper. rewrite length_app, Nat.add_comm. simpl plus.
  apply pop_loop_top.
Qed.

(** The loop removes a run of entries at [indent] or deeper from the
    top and stops at the first strictly shallower entry. *)
Lemma pop_deeper_spec (indent : nat) (stack : list entry) :
  exists popped,
    stack = pop_deeper indent stack ++ popped
    /\ Forall (fun e => indent <= fst e) popped
    /\ (pop_deeper indent stack = []
        \/ exists below top,
             pop_deeper indent stack = below ++ [top] /\ fst top < indent).
Proof.
  induction stack as [|top below IH] using rev_ind.
  - exists []. repeat split; [constructor|now left].
  - rewrite pop_deeper_top.
    destruct (Nat.leb_spec indent (fst top)) as [Hge|Hlt].
    + destruct IH as (popped & Heq & Hall & Hdone).
      exists (popped ++ [top]). repeat split.
      * rewrite app_assoc, <- Heq. reflexivity.
      * apply Forall_app. split; [exact Hall|].
        constructor; [exact Hge|constructor].
      * exact Hdone.
    + exists []. rewrite app_nil_r. repeat split; [constructor|].
      right. now exists below, top.
Qed.

(** The loop has run to its end: run again, it pops nothing. *)
Lemma pop_deeper_done (indent : nat) (stack : list entry) :
  pop_deeper indent (pop_deeper indent stack) = pop_deeper indent stack.
Proof.
  destruct (pop_deeper_spec indent stack) as (_ & _ & _ & [E|(b & t & E & Ht)]).
  - rewrite E. reflexivity.
  - rewrite E, pop_deeper_top.
    destruct (Nat.leb_spec indent (fst t)); [lia|reflexivity].
Qed.

Lemma pop_deeper_increasing (indent : nat) (stack : list entry) :
  increasing stack -> increasing (pop_deeper indent stack).
Proof.
  intros H. destruct (pop_deeper_spec indent stack) as (popped & Heq & _).
  rewrite Heq in H. now apply increasing_app in H.
Qed.

(** On an increasing stack the pop leaves only entries strictly
    shallower than [indent]. *)
Lemma pop_deeper_shallower (indent : nat) (stack : list entry) :
  increasing stack -> shallower indent (pop_deeper indent stack).
Proof.
  intros H. pose proof (@pop_deeper_increasing indent stack H) as Hinc.
  destruct (pop_deeper_spec indent stack) as (_ & _ & _ & [E|(b & t & E & Ht)]).
  - rewrite E. constructor.
  - rewrite E in *. apply Forall_app. split.
    + apply shallower_weaken with (i := fst t); [lia|].
      now apply increasing_below_top.
    + constructor; [exact Ht|constructor].
Qed.

(** Entries at [indent] or deeper on top are all popped. *)
Lemma pop_deeper_drop (indent : nat) (below deeper : list entry) :
  Forall (fun e => indent <= fst e) deeper ->
  pop_deeper indent (below ++ deeper) = pop_deeper indent below.
Proof.
  induction deeper as [|top d IH] using rev_ind; intros Hall.
  - now rewrite app_nil_r.
  - apply Forall_app in Hall as [Hd Htop].
    inversion Htop as [|? ? Hge _]; subst.
    rewrite app_assoc, pop_deeper_top.
    destruct (Nat.leb_spec indent (fst top)); [|lia].
    now apply IH.
Qed.

(** Above an entry strictly shallower than [indent] the loop works on
    the upper part alone. *)
Lemma pop_deeper_above (indent : nat) (below upper : list entry) (e : entry) :
  fst e < indent ->
  pop_deeper indent ((below ++ [e]) ++ upper)
  = (below ++ [e]) ++ pop_deeper indent upper.
Proof.
  intros He. induction upper as [|top u IH] using rev_ind.
  - rewrite pop_deeper_nil, !app_nil_r, pop_deeper_top.
    destruct (Nat.leb_spec indent (fst e)); [lia|reflexivity].
  - rewrite app_assoc, !pop_deeper_top.
    destruct (Nat.leb_spec indent (fst top)); [exact IH|].
    now rewrite app_assoc.
Qed.

End StackFacts.

(** ** One round of the loop *)

Section LoopFacts.
Variable os : os_name.
Variables str_lower str_upper : str -> str.
Variable fs : filesystem.
Variable root_dir : str.

Local Abbreviation body := (loop_body os str_lower str_upper fs root_dir).
Local Abbreviation run := (run_from os str_lower str_upper fs root_dir).
Local Abbreviation program := (main os str_lower str_upper fs root_dir).
Local Abbreviation rel_path := (relative_path os str_lower str_upper).
Local Abbreviation full_path := (candidate os str_lower str_upper root_dir).

Lemma classify_dir (line dirname : str) :
  classify line = DirLine dirname <->
  exists group1, dir_match line = Some group1
                 /\ dirname = rstrip_char slash group1.
Proof.
  unfold classify. destruct (dir_match line) as [g|].
  - split.
    + intros [= <-]. now exists g.
    + intros (g' & [= <-] & ->). reflexivity.
  - split.
    + destruct (file_match line); discriminate.
    + intros (g' & H & _). discriminate.
Qed.

Lemma classify_file (line filename : str) :
  classify line = FileLine filename <->
  dir_match line = None /\ file_match line = Some filename.
Proof.
  unfold classify. destruct (dir_match line) as [g|].
  - split; [discriminate|intros [H _]; discriminate].
  - destruct (file_match line) as [f|].
    + split; [intros [= <-]; now split|intros [_ [= <-]]; reflexivity].
    + split; [discriminate|intros [_ H]; discriminate].
Qed.

Lemma classify_other (line : str) :
  classify line = Other <-> dir_match line = None /\ file_match line = None.
Proof.
  unfold classify. destruct (dir_match line) as [g|].
  - split; [discriminate|intros [H _]; discriminate].
  - destruct (file_match line) as [f|].
    + split; [discriminate|intros [_ H]; discriminate].
    + split; [now split|reflexivity].
Qed.

Lemma body_dir (s : state) (line dirname : str) :
  classify line = DirLine dirname ->
  body s line =
  {| dir_stack := pop_deeper (indent_of line) (dir_stack s)
                    ++ [(indent_of line, dirname)];
     new_lines := new_lines s ++ [line];
     stdout := stdout s |}.
Proof.
  intros H. apply classify_dir in H as (g & Hg & ->).
  unfold dir_match in Hg. unfold loop_body. now rewrite Hg.
Qed.

Lemma body_other (s : state) (line : str) :
  classify line = Other ->
  body s line =
  {| dir_stack := dir_stack s;
     new_lines := new_lines s ++ [line];
     stdout := stdout s |}.
Proof.
  intros H. apply classify_other in H as [Hd Hf].
  unfold dir_match in Hd. unfold file_match in Hf.
  unfold loop_body. now rewrite Hd, Hf.
Qed.

Lemma body_file_missing (s : state) (line filename : str) :
  classify line = FileLine filename ->
  exists_ fs (full_path (dir_stack s) line filename) = false ->
  body s line =
  {| dir_stack := pop_deeper (indent_of line) (dir_stack s);
     new_lines := new_lines s ++ [line];
     stdout := stdout s ++ [not_found (full_path (dir_stack s) line filename)] |}.
Proof.
  intros H Hex. apply classify_file in H as [Hd Hf].
  unfold dir_match in Hd. unfold file_match in Hf.
  unfold candidate, relative_path, path_parts in Hex.
  unfold loop_body. rewrite Hd, Hf, Hex. reflexivity.
Qed.

Lemma body_file_found (s : state) (line filename : str) :
  classify line = FileLine filename ->
  exists_ fs (full_path (dir_stack s) line filename) = true ->
  body s line =
  {| dir_stack := pop_deeper (indent_of line) (dir_stack s);
     new_lines :=
       new_lines s ++
       [slice_to line (find line filename)
        ++ link filename
             (replace_char backslash slash
                (rel_path (dir_stack s) line filename))
        ++ slice_from line
             (find line filename + Z.of_nat (length filename))%Z];
     stdout := stdout s |}.
Proof.
  intros H Hex. apply classify_file in H as [Hd Hf].
  unfold dir_match in Hd. unfold file_match in Hf.
  unfold candidate, relative_path, path_parts in Hex.
  unfold loop_body. rewrite Hd, Hf, Hex. reflexivity.
Qed.

(** The two slices of the rewrite cut the line around the first
    occurrence of the token. *)
Lemma splice_first (line filename : str) :
  (exists before after, line = before ++ filename ++ after) ->
  exists prefix suffix,
    line = prefix ++ filename ++ suffix
    /\ slice_to line (find line filename) = prefix
    /\ slice_from line (find line filename + Z.of_nat (length filename))%Z
       = suffix
    /\ (forall before after,
          line = before ++ filename ++ after ->
          length prefix <= length before).
Proof.
  intros (before & after & Hline).
  destruct (find_from_found filename before after 0%Z)
    as (k & Hk & Hle & Hat & Hmin).
  rewrite <- Hline in Hk, Hat, Hmin. simpl in Hk.
  apply startswith_inv in Hat.
  assert (Hklen : k + length filename <= length line).
  { rewrite Hline at 1. rewrite !length_app. lia. }
  assert (Hk' : k <= length line) by lia.
  exists (firstn k line), (skipn (length filename) (skipn k line)).
  split; [|split; [|split]].
  - rewrite <- Hat. symmetry. apply firstn_skipn.
  - unfold find. rewrite Hk. now apply slice_to_inside.
  - unfold find. rewrite Hk, <- Nat2Z.inj_add.
    rewrite slice_from_inside by exact Hklen.
    rewrite skipn_skipn. f_equal. lia.
  - intros b a Hba. rewrite length_firstn.
    destruct (Nat.le_gt_cases k (length b)) as [Hok|Hlt]; [lia|].
    exfalso. specialize (Hmin (length b) Hlt).
    rewrite Hba in Hmin at 1. rewrite skipn_app, Nat.sub_diag in Hmin.
    rewrite skipn_all in Hmin. simpl in Hmin.
    now rewrite startswith_app in Hmin.
Qed.

(** Where the token stands in a file line: after the indentation, the
    bullet and the white space behind it.  Unless the token is a lone
    hyphen, this is its first occurrence, the one the rewrite cuts
    at. *)
Lemma token_position (line filename : str) :
  classify line = FileLine filename ->
  exists lead ws after,
    line = (lead ++ hyphen :: ws) ++ filename ++ after
    /\ forallb isspace lead = true
    /\ forallb isspace ws = true
    /\ length lead = indent_of line
    /\ (filename <> [hyphen] ->
        slice_to line (find line filename) = lead ++ hyphen :: ws).
Proof.
  intros Hfile. apply classify_file in Hfile as [_ Hfile].
  unfold file_match in Hfile.
  apply file_re_shape in Hfile
    as (ws1 & ws2 & rest & Hs & Hne1 & Hsp1 & Hne & Hns & _).
  destruct (strip_inside line) as (lead & trail & Hline & Hlead).
  set (after := ws2 ++ emdash :: rest ++ trail).
  assert (Hshape : line = (lead ++ hyphen :: ws1) ++ filename ++ after).
  { rewrite Hline, Hs. unfold after. simpl.
    repeat (rewrite <- app_assoc; simpl). reflexivity. }
  exists lead, ws1, after.
  split; [exact Hshape|]. split; [exact Hlead|]. split; [exact Hsp1|].
  split.
  { unfold indent_of, lstrip.
    assert (Hdrop : dropwhile isspace line
                    = hyphen :: ws1 ++ filename ++ after).
    { rewrite Hshape. rewrite <- app_assoc. simpl.
      clear - Hlead. induction lead as [|c lead IH]; simpl; [reflexivity|].
      simpl in Hlead. apply andb_prop in Hlead as [Hc Hrest].
      rewrite Hc. now apply IH. }
    rewrite Hdrop. rewrite Hshape at 1.
    rewrite <- app_assoc. rewrite length_app. simpl. lia. }
  intros Hnot.
  destruct (@splice_first line filename)
    as (prefix & suffix & Hcut & Hp & _ & Hmin).
  { now exists (lead ++ hyphen :: ws1), after. }
  rewrite Hp. specialize (Hmin _ _ Hshape).
  assert (Heq : prefix ++ filename ++ suffix
                = (lead ++ hyphen :: ws1) ++ filename ++ after)
    by congruence.
  destruct filename as [|c0 fn]; [congruence|].
  simpl in Hns. apply andb_prop in Hns as [Hc0 Hfn].
  apply negb_true_iff in Hc0.
  assert (Hbullet :
            forall tail, (c0 :: fn) ++ suffix = hyphen :: ws1 ++ tail -> False).
  { intros tail E. injection E as Hc E.
    destruct ws1 as [|w ws1]; [congruence|].
    simpl in Hsp1. apply andb_prop in Hsp1 as [Hw _].
    destruct fn as [|c1 fn]; [congruence|].
    simpl in Hfn. apply andb_prop in Hfn as [Hc1 _].
    apply negb_true_iff in Hc1.
    injection E as Hc1w _. congruence. }
  apply app_eq_app in Heq as [l [[Hpre _]|[Hpre Hrest]]].
  - rewrite Hpre in Hmin. rewrite length_app in Hmin.
    destruct l; [now rewrite app_nil_r in Hpre|simpl in Hmin; lia].
  - destruct l as [|x l]; [now rewrite app_nil_r in Hpre|].
    exfalso.
    assert (x = c0) by (simpl in Hrest; now injection Hrest). subst x.
    symmetry in Hpre.
    apply app_eq_app in Hpre as [l2 [[Hp2 Hl2]|[Hp2 Hl2]]].
    + destruct l2 as [|y l2].
      * simpl in Hl2. injection Hl2 as Hc Hl.
        apply (Hbullet ((c0 :: fn) ++ after)).
        rewrite Hrest. simpl. congruence.
      * simpl in Hl2. injection Hl2 as _ Hws.
        rewrite Hws, forallb_app in Hsp1.
        apply andb_prop in Hsp1 as [_ Hsp1]. simpl in Hsp1.
        apply andb_prop in Hsp1 as [Hsp1 _]. congruence.
    + destruct l2 as [|y l2].
      * simpl in Hl2. injection Hl2 as Hc Hl.
        apply (Hbullet ((c0 :: fn) ++ after)).
        rewrite Hrest. simpl. congruence.
      * simpl in Hl2. injection Hl2 as Hc _. subst y.
        rewrite Hp2, forallb_app in Hlead.
        apply andb_prop in Hlead as [_ Hlead]. simpl in Hlead.
        apply andb_prop in Hlead as [Hlead _]. congruence.
Qed.

(** Every round appends exactly one line. *)
Lemma body_appends (s : state) (line : str) :
  exists out, new_lines (body s line) = new_lines s ++ [out].
Proof.
  unfold loop_body.
  destruct (match_group1 dir_re (strip line)); [eexists; reflexivity|].
  destruct (match_group1 file_re (strip line)); [|eexists; reflexivity].
  match goal with |- context [exists_ fs ?p] => destruct (exists_ fs p) end;
    eexists; reflexivity.
Qed.

(** Every round only adds to what was printed. *)
Lemma body_prints (s : state) (line : str) :
  exists msgs, stdout (body s line) = stdout s ++ msgs.
Proof.
  unfold loop_body.
  destruct (match_group1 dir_re (strip line));
    [exists []; simpl; now rewrite app_nil_r|].
  destruct (match_group1 file_re (strip line));
    [|exists []; simpl; now rewrite app_nil_r].
  match goal with |- context [exists_ fs ?p] => destruct (exists_ fs p) end.
  - exists []; simpl; now rewrite app_nil_r.
  - eexists; reflexivity.
Qed.

Lemma body_stack (s : state) (line : str) :
  dir_stack (body s line) = stack_step (dir_stack s) line.
Proof.
  unfold stack_step, classify, dir_match, file_match, loop_body.
  destruct (match_group1 dir_re (strip line)); [reflexivity|].
  destruct (match_group1 file_re (strip line)); [|reflexivity].
  match goal with |- context [exists_ fs ?p] => destruct (exists_ fs p) end;
    reflexivity.
Qed.

(** The line a round appends and the stack it leaves do not depend on
    the lines and messages gathered so far. *)
Lemma body_frame (s : state) (line : str) :
  let s0 := {| dir_stack := dir_stack s; new_lines := []; stdout := [] |} in
  new_lines (body s line) = new_lines s ++ new_lines (body s0 line)
  /\ stdout (body s line) = stdout s ++ stdout (body s0 line).
Proof.
  unfold loop_body. simpl.
  destruct (match_group1 dir_re (strip line));
    [simpl; now rewrite app_nil_r|].
  destruct (match_group1 file_re (strip line));
    [|simpl; now rewrite app_nil_r].
  match goal with |- context [exists_ fs ?p] => destruct (exists_ fs p) end;
    simpl; now rewrite ?app_nil_r.
Qed.

Lemma run_app (s : state) (before after : list str) :
  run s (before ++ after) = run (run s before) after.
Proof. apply fold_left_app. Qed.

Lemma run_stack (lines : list str) :
  forall s, dir_stack (run s lines) = stack_after (dir_stack s) lines.
Proof.
  induction lines as [|line lines IH]; intros s; simpl; [reflexivity|].
  rewrite IH, body_stack. reflexivity.
Qed.

(** A run extends [new_lines] by one line per input line and [stdout]
    by some messages. *)
Lemma run_extends (lines : list str) :
  forall s, exists outs msgs,
    new_lines (run s lines) = new_lines s ++ outs
    /\ length outs = length lines
    /\ stdout (run s lines) = stdout s ++ msgs.
Proof.
  induction lines as [|line lines IH]; intros s; simpl.
  - exists [], []. now rewrite !app_nil_r.
  - destruct (IH (body s line)) as (outs & msgs & Hn & Hl & Ho).
    destruct (body_appends s line) as (out & Hout).
    destruct (body_prints s line) as (m & Hm).
    exists (out :: outs), (m ++ msgs). repeat split.
    + rewrite Hn, Hout, <- app_assoc. reflexivity.
    + simpl. now rewrite Hl.
    + rewrite Ho, Hm, <- app_assoc. reflexivity.
Qed.

Lemma stack_step_increasing (stack : list entry) (line : str) :
  increasing stack -> increasing (stack_step stack line).
Proof.
  intros H. unfold stack_step. destruct (classify line).
  - apply increasing_push.
    + now apply pop_deeper_increasing.
    + now apply pop_deeper_shallower.
  - now apply pop_deeper_increasing.
  - exact H.
Qed.

Lemma stack_after_increasing (lines : list str) :
  forall stack, increasing stack -> increasing (stack_after stack lines).
Proof.
  induction lines as [|line lines IH]; intros stack H; simpl; [exact H|].
  apply IH. now apply stack_step_increasing.
Qed.

Lemma stack_after_app (stack : list entry) (before after : list str) :
  stack_after stack (before ++ after)
  = stack_after (stack_after stack before) after.
Proof. apply fold_left_app. Qed.

(** A round either keeps the line or is the rewrite of a file line
    whose candidate exists. *)
Lemma body_cases (s : state) (line : str) :
  new_lines (body s line) = new_lines s ++ [line]
  \/ exists filename,
       classify line = FileLine filename
       /\ exists_ fs (full_path (dir_stack s) line filename) = true
       /\ new_lines (body s line) =
          new_lines s ++
          [slice_to line (find line filename)
           ++ link filename
                (replace_char backslash slash
                   (rel_path (dir_stack s) line filename))
           ++ slice_from line
                (find line filename + Z.of_nat (length filename))%Z].
Proof.
  destruct (classify line) as [d|f|] eqn:Hc.
  - left. now rewrite (@body_dir s line d Hc).
  - destruct (exists_ fs (full_path (dir_stack s) line f)) eqn:Hex.
    + right. exists f. repeat split; [exact Hex|].
      now rewrite (@body_file_found s line f Hc Hex).
    + left. now rewrite (@body_file_missing s line f Hc Hex).
  - left. now rewrite (@body_other s line Hc).
Qed.

Lemma run_initial_length (lines : list str) :
  length (new_lines (run initial lines)) = length lines.
Proof.
  destruct (run_extends lines initial) as (outs & _ & Hn & Hl & _).
  rewrite Hn. simpl. exact Hl.
Qed.

(** The line appended in the round of [line] stays where it is to the
    end of the run. *)
Lemma run_line (s0 : state) (before after : list str) (line : str) :
  exists out rest msgs,
    new_lines (body (run s0 before) line)
    = new_lines (run s0 before) ++ [out]
    /\ new_lines (run s0 (before ++ line :: after))
       = new_lines (run s0 before) ++ out :: rest
    /\ length rest = length after
    /\ stdout (run s0 (before ++ line :: after))
       = stdout (body (run s0 before) line) ++ msgs.
Proof.
  destruct (body_appends (run s0 before) line) as (out & Hout).
  destruct (run_extends after (body (run s0 before) line))
    as (rest & msgs & Hn & Hl & Ho).
  assert (E : run s0 (before ++ line :: after)
              = run (body (run s0 before) line) after)
    by (rewrite run_app; reflexivity).
  exists out, rest, msgs. rewrite E.
  repeat split; [exact Hout| |exact Hl|exact Ho].
  rewrite Hn, Hout, <- app_assoc. reflexivity.
Qed.

Lemma nth_error_middle (A : Type) (l : list A) (x : A) (r : list A) :
  nth_error (l ++ x :: r) (length l) = Some x.
Proof.
  rewrite nth_error_app2 by apply Nat.le_refl.
  now rewrite Nat.sub_diag.
Qed.

Lemma initial_increasing (lines : list str) :
  increasing (dir_stack (run initial lines)).
Proof.
  rewrite run_stack. apply stack_after_increasing. apply increasing_nil.
Qed.

(** Lines that are plain or deeper than the entry [e] leave [e] and
    everything below it in place; what lies above [e] afterwards is
    deeper than [e] and was there before or was pushed by one of the
    lines. *)
Lemma stack_after_inside (below : list entry) (e : entry) :
  forall (lines : list str) (upper : list entry),
    Forall (inside_of (fst e)) lines ->
    Forall (fun x => fst e < fst x) upper ->
    exists upper',
      stack_after ((below ++ [e]) ++ upper) lines = (below ++ [e]) ++ upper'
      /\ Forall (fun x => fst e < fst x) upper'
      /\ Forall (fun x => In x upper \/ pushed_by lines x) upper'.
Proof.
  induction lines as [|line lines IH]; intros upper Hin Hup.
  - exists upper. simpl. repeat split; [exact Hup|].
    apply Forall_forall. intros x Hx. now left.
  - inversion Hin as [|? ? Hline Hrest]; subst.
    destruct (pop_deeper_spec (indent_of line) upper) as (popped & Hsplit & _).
    assert (Hkept : Forall (fun x => fst e < fst x)
                      (pop_deeper (indent_of line) upper)).
    { rewrite Hsplit in Hup. now apply Forall_app in Hup. }
    assert (Hsub : forall x, In x (pop_deeper (indent_of line) upper) ->
                             In x upper).
    { intros x Hx. rewrite Hsplit. apply in_or_app. now left. }
    assert (Hlater : forall x, pushed_by lines x -> pushed_by (line :: lines) x).
    { intros x (l & Hl & Hcl). exists l. split; [now right|exact Hcl]. }
    simpl stack_after. unfold stack_step, inside_of in *.
    destruct (classify line) as [d|f|] eqn:Hc.
    + rewrite pop_deeper_above by exact Hline. rewrite <- app_assoc.
      destruct (IH (pop_deeper (indent_of line) upper ++ [(indent_of line, d)]))
        as (upper' & Heq & Hdeep & Horigin); [exact Hrest| |].
      { apply Forall_app. split; [exact Hkept|].
        constructor; [exact Hline|constructor]. }
      exists upper'. repeat split; [exact Heq|exact Hdeep|].
      eapply Forall_impl; [|exact Horigin]. intros x [Hx|Hx].
      * apply in_app_or in Hx as [Hx|[<-|[]]]; [left; now apply Hsub|].
        right. exists line. repeat split; [now left|exact Hc].
      * right. now apply Hlater.
    + rewrite pop_deeper_above by exact Hline.
      destruct (IH (pop_deeper (indent_of line) upper))
        as (upper' & Heq & Hdeep & Horigin); [exact Hrest|exact Hkept|].
      exists upper'. repeat split; [exact Heq|exact Hdeep|].
      eapply Forall_impl; [|exact Horigin]. intros x [Hx|Hx].
      * left. now apply Hsub.
      * right. now apply Hlater.
    + destruct (IH upper) as (upper' & Heq & Hdeep & Horigin);
        [exact Hrest|exact Hup|].
      exists upper'. repeat split; [exact Heq|exact Hdeep|].
      eapply Forall_impl; [|exact Horigin]. intros x [Hx|Hx].
      * now left.
      * right. now apply Hlater.
Qed.

(** A round on a file system with the same existing paths is the same
    round. *)
Lemma body_exists_only (fs' : filesystem) (s : state) (line : str) :
  (forall p, exists_ fs p = exists_ fs' p) ->
  body s line = loop_body os str_lower str_upper fs' root_dir s line.
Proof.
  intros H. unfold loop_body.
  destruct (match_group1 dir_re (strip line)); [reflexivity|].
  destruct (match_group1 file_re (strip line)); [|reflexivity].
  now rewrite H.
Qed.

Lemma run_exists_only (fs' : filesystem) (lines : list str) :
  (forall p, exists_ fs p = exists_ fs' p) ->
  forall s, run s lines = run_from os str_lower str_upper fs' root_dir s lines.
Proof.
  intros H. induction lines as [|line lines IH]; intros s; simpl;
    [reflexivity|].
  rewrite IH. now rewrite (@body_exists_only fs' s line H).
Qed.

Lemma rstrip_char_trimmed (c : char) (s rest : str) :
  rstrip_char c s <> rest ++ [c].
Proof.
  unfold rstrip_char. intros H.
  apply (f_equal (@rev char)) in H.
  rewrite rev_involutive, rev_app_distr in H. simpl in H.
  pose proof (dropwhile_head (N.eqb c) (rev s)) as Hhead.
  rewrite H in Hhead. now rewrite N.eqb_refl in Hhead.
Qed.

End LoopFacts.

(** ** [os.path.join] of a single component *)

Section JoinFacts.
Variables str_lower str_upper : str -> str.

Lemma find_from_hit (sub : str) :
  forall (s : str) (i r : Z),
    (0 <= i)%Z -> find_from sub s i = r -> r <> (-1)%Z ->
    exists k, r = (i + Z.of_nat k)%Z /\ k <= length s
              /\ startswith sub (skipn k s) = true.
Proof.
  induction s as [|c s IH]; intros i r Hi Hr Hne; simpl in Hr.
  - destruct (startswith sub []) eqn:Hs; [|congruence].
    exists 0. simpl. repeat split; [lia|lia|exact Hs].
  - destruct (startswith sub (c :: s)) eqn:Hs.
    + exists 0. simpl. repeat split; [lia|lia|exact Hs].
    + destruct (IH (i + 1)%Z r) as (k & Hk & Hle & Hat); [lia|exact Hr|exact Hne|].
      exists (S k). simpl. repeat split; [lia|lia|exact Hat].
Qed.

Lemma find_at_hit (s sub : str) (start r : Z) :
  (0 <= start)%Z -> find_at s sub start = r -> r <> (-1)%Z ->
  exists k, r = Z.of_nat k /\ k <= length s
            /\ startswith sub (skipn k s) = true.
Proof.
  intros Hstart Hr Hne. unfold find_at in Hr.
  destruct (Z.ltb_spec start 0) as [|_]; [lia|].
  destruct (Z.ltb_spec (Z.of_nat (length s)) start) as [|Hin]; [congruence|].
  destruct (find_from_hit sub (skipn (Z.to_nat start) s) Hstart Hr Hne)
    as (k & Hk & Hle & Hat).
  rewrite length_skipn in Hle. rewrite skipn_skipn in Hat.
  exists (k + Z.to_nat start). repeat split; [lia|lia|exact Hat].
Qed.

(** The two parts [splitdrive] returns make up its argument, and a
    drive that does not end in a colon is followed by nothing or by a
    separator. *)
Lemma splitdrive_parts (p : str) :
  fst (splitdrive str_upper p) ++ snd (splitdrive str_upper p) = p
  /\ (snd (splitdrive str_upper p) = []
      \/ (exists c r, snd (splitdrive str_upper p) = c :: r
                      /\ in_seps c = true)
      \/ fst (splitdrive str_upper p) = []
      \/ str_eqb (slice_from (fst (splitdrive str_upper p)) (-1)) [colon]
         = true).
Proof.
  unfold splitdrive.
  destruct (Nat.leb_spec 2 (length p)) as [Hlen|_];
    [|split; [reflexivity|now right; right; left]].
  set (normp := replace_char slash backslash p).
  destruct (str_eqb (slice_to normp 2) [backslash; backslash]).
  - set (start := if str_eqb (str_upper (slice_to normp 8)) unc_prefix
                  then 8%Z else 2%Z).
    assert (Hstart : (0 <= start)%Z)
      by (unfold start; destruct (str_eqb _ unc_prefix); lia).
    destruct (Z.eqb_spec (find_at normp [backslash] start) (-1)) as [|Hi];
      [simpl; split; [apply app_nil_r|now left]|].
    destruct (find_at_hit _ _ Hstart eq_refl Hi) as (k1 & Hk1 & _ & _).
    destruct (Z.eqb_spec
                (find_at normp [backslash]
                   (find_at normp [backslash] start + 1)) (-1)) as [|Hi2];
      [simpl; split; [apply app_nil_r|now left]|].
    assert (Hnext : (0 <= find_at normp [backslash] start + 1)%Z) by lia.
    destruct (find_at_hit _ _ Hnext eq_refl Hi2) as (k2 & Hk2 & Hle2 & Hat2).
    rewrite Hk2. simpl fst. simpl snd.
    split; [apply slice_to_from|].
    right; left.
    unfold normp in Hle2, Hat2. rewrite replace_char_length in Hle2.
    rewrite slice_from_inside by exact Hle2.
    unfold replace_char in Hat2. rewrite skipn_map in Hat2.
    unfold str, char in *.
    destruct (skipn k2 p) as [|c r]; [discriminate|].
    exists c, r. split; [reflexivity|].
    cbn [map startswith] in Hat2. unfold in_seps.
    destruct (N.eqb_spec c slash) as [->|_]; [reflexivity|].
    rewrite andb_true_r in Hat2. apply N.eqb_eq in Hat2. subst c.
    reflexivity.
  - destruct (str_eqb (slice_to (slice_from normp 1) 1) [colon]) eqn:Hcolon;
      [|split; [reflexivity|now right; right; left]].
    simpl fst. simpl snd. split; [apply slice_to_from|].
    right; right; right.
    destruct p as [|a [|b p]]; try (simpl in Hlen; lia).
    change 2%Z with (Z.of_nat 2). rewrite slice_to_inside by exact Hlen.
    change 1%Z with (Z.of_nat 1) in Hcolon.
    unfold normp in Hcolon.
    rewrite slice_from_inside in Hcolon
      by (rewrite replace_char_length; simpl; lia).
    simpl in Hcolon.
    change 1%Z with (Z.of_nat 1) in Hcolon.
    rewrite slice_to_inside in Hcolon by (simpl; lia).
    simpl in Hcolon. apply str_eqb_eq in Hcolon.
    injection Hcolon as Hb.
    destruct (N.eqb_spec b slash) as [->|_]; [discriminate|].
    subst b. reflexivity.
Qed.

(** With nothing to append, both flavours return the component. *)
Lemma join_single (os : os_name) (a : str) :
  join str_lower str_upper os a [] = a.
Proof.
  destruct os; simpl; [reflexivity|].
  unfold ntpath_join. simpl fold_left.
  destruct (splitdrive_parts a) as [Hcat Hcases].
  destruct (splitdrive str_upper a) as [drive path]. simpl in *.
  destruct Hcases as [->|[(c & r & -> & Hc)|[->|Hcolon]]].
  - simpl. exact Hcat.
  - rewrite Hc. simpl. exact Hcat.
  - destruct path as [|c r]; simpl; [exact Hcat|].
    rewrite andb_false_r. exact Hcat.
  - rewrite Hcolon. simpl. rewrite andb_false_r. exact Hcat.
Qed.

End JoinFacts.

(** * The claims *)

Import Samples.

Section Claims.
Variable os : os_name.
Variables str_lower str_upper : str -> str.
Variable fs : filesystem.
Variable root_dir : str.

Local Abbreviation body := (loop_body os str_lower str_upper fs root_dir).
Local Abbreviation run := (run_from os str_lower str_upper fs root_dir).
Local Abbreviation program := (main os str_lower str_upper fs root_dir).
Local Abbreviation path_join := (os_path_join os str_lower str_upper).
Local Abbreviation parts_join := (join_parts os str_lower str_upper).

(** C1.  A file line whose candidate path exists is rewritten: the
    candidate is [root_dir] joined with the names on the stack (after
    the pop, bottom first) joined with the token, and just the token
    under [root_dir] when the stack is empty; the new line is the old
    one with the token replaced by [[token](path)], where the path is
    the relative path with every backslash turned into a forward slash.
    What stands before the link is the indentation, the bullet and the
    white space behind it, unless the token is a lone hyphen.  On the
    nested inventory, under both flavours of [os.path], the link path
    is [core/models/Order.java]. *)
Theorem C1_file_line_linked :
  (forall (s : state) (line filename : str),
     let names := map snd (pop_deeper (indent_of line) (dir_stack s)) in
     let relative := parts_join names filename in
     let forward := replace_char backslash slash relative in
     classify line = FileLine filename ->
     exists_ fs (path_join root_dir [relative]) = true ->
     (names = [] -> relative = filename)
     /\ ~ In backslash forward
     /\ (~ In backslash relative -> forward = relative)
     /\ exists prefix suffix,
          line = prefix ++ filename ++ suffix
          /\ new_lines (body s line) =
             new_lines s ++
             [prefix ++ (lit "[" ++ filename ++ lit "](" ++ forward ++ lit ")")
              ++ suffix]
          /\ stdout (body s line) = stdout s
          /\ (filename <> [hyphen] ->
              exists lead ws,
                prefix = lead ++ hyphen :: ws
                /\ forallb isspace lead = true
                /\ forallb isspace ws = true))
  /\ (fs (order_java os) <> None ->
      new_lines (main os str_lower str_upper fs (lit "root") nested)
      = nested_linked).
Proof.
  split.
  - intros s line filename names relative forward Hfile Hex.
    split; [|split; [|split]].
    + intros Hnames. unfold relative. rewrite Hnames. simpl.
      apply join_single.
    + apply replace_char_gone. discriminate.
    + apply replace_char_id.
    + pose proof Hfile as Hocc. apply classify_file in Hocc as [_ Hocc].
      apply file_match_occurs in Hocc.
      destruct (@splice_first line filename Hocc) as (prefix & suffix & Hline & Hp & Hs & _).
      exists prefix, suffix. split; [exact Hline|].
      rewrite (@body_file_found os str_lower str_upper fs root_dir s line filename Hfile Hex).
      simpl new_lines. rewrite Hs. split; [now rewrite Hp|].
      split; [reflexivity|].
      intros Hnot.
      destruct (@token_position line filename Hfile)
        as (lead & ws & _ & _ & Hlead & Hws & _ & Hcut).
      exists lead, ws. rewrite <- Hp. now rewrite (Hcut Hnot).
  - intros Hnode. destruct os; vm_compute in Hnode |- *.
    + destruct (fs _); [reflexivity|congruence].
    + destruct (fs _); [reflexivity|congruence].
Qed.


(** C2.  A file line whose candidate path does not exist is put back as
    it is, [File not found: <path>] is printed at that point, and the
    run goes on: the rest of the inventory is read, every line has its
    place in the output, and the completion message is printed last. *)
Theorem C2_missing_file_kept :
  forall (before after : list str) (line filename : str),
    let s := run initial before in
    let names := map snd (pop_deeper (indent_of line) (dir_stack s)) in
    let full := path_join root_dir [parts_join names filename] in
    let final := program (before ++ line :: after) in
    classify line = FileLine filename ->
    exists_ fs full = false ->
    new_lines (body s line) = new_lines s ++ [line]
    /\ stdout (body s line) = stdout s ++ [lit "File not found: " ++ full]
    /\ nth_error (new_lines final) (length before) = Some line
    /\ length (new_lines final) = length (before ++ line :: after)
    /\ In (lit "File not found: " ++ full) (stdout final)
    /\ last (stdout final) [] = lit "Inventory processing complete.".
Proof.
  intros before after line filename s names full final Hfile Hex.
  pose proof (@body_file_missing os str_lower str_upper fs root_dir
                s line filename Hfile Hex) as Hbody.
  destruct (run_line os str_lower str_upper fs root_dir initial before after line)
    as (out & rest & msgs & Hout & Hrun & _ & Hprint).
  fold s in Hout, Hrun, Hprint.
  assert (Hsame : out = line).
  { rewrite Hbody in Hout. simpl in Hout.
    apply app_inv_head in Hout. now injection Hout. }
  subst out. rewrite Hbody in Hprint. simpl in Hprint.
  split; [now rewrite Hbody|]. split; [now rewrite Hbody|].
  unfold final, main. simpl new_lines. simpl stdout.
  split; [|split; [|split]].
  - rewrite Hrun.
    rewrite <- (run_initial_length os str_lower str_upper fs root_dir before).
    apply nth_error_middle.
  - apply run_initial_length.
  - rewrite Hprint. apply in_or_app. left. apply in_or_app. left.
    apply in_or_app. right. now left.
  - apply last_last.
Qed.

(** C3 (amended).  After every line the levels on the stack grow
    strictly from bottom to top.  After a file line every entry is
    strictly shallower than the line; after a directory line the top
    entry is the line's own and every entry below it is strictly
    shallower; any other line leaves the stack as it was. *)
Theorem C3_stack_increasing :
  forall (before : list str) (line : str),
    let s0 := run initial before in
    let s1 := run initial (before ++ [line]) in
    increasing (dir_stack s1)
    /\ (forall filename,
          classify line = FileLine filename ->
          dir_stack s1 = pop_deeper (indent_of line) (dir_stack s0)
          /\ shallower (indent_of line) (dir_stack s1))
    /\ (forall dirname,
          classify line = DirLine dirname ->
          dir_stack s1 = pop_deeper (indent_of line) (dir_stack s0)
                           ++ [(indent_of line, dirname)]
          /\ shallower (indent_of line)
               (pop_deeper (indent_of line) (dir_stack s0)))
    /\ (classify line = Other -> dir_stack s1 = dir_stack s0).
Proof.
  intros before line s0 s1.
  pose proof (initial_increasing os str_lower str_upper fs root_dir before)
    as Hinc0.
  fold s0 in Hinc0.
  assert (Hstep : dir_stack s1 = stack_step (dir_stack s0) line).
  { unfold s1, s0. rewrite run_app. simpl. apply body_stack. }
  split; [apply initial_increasing|].
  unfold stack_step in Hstep.
  split; [|split].
  - intros filename Hc. rewrite Hc in Hstep. rewrite Hstep.
    split; [reflexivity|now apply pop_deeper_shallower].
  - intros dirname Hc. rewrite Hc in Hstep. rewrite Hstep.
    split; [reflexivity|now apply pop_deeper_shallower].
  - intros Hc. now rewrite Hc in Hstep.
Qed.

(** C4 (amended).  Two directory lines at the same level [L], the lines
    between them plain or deeper than [L]: the second replaces the
    first on the stack.  A file line deeper than [L] that follows,
    with only plain or deeper lines in between, has as path parts the
    names open below [L] before the first directory line, then the name
    of the second directory, then names pushed by directory lines after
    it; the first directory takes no part. *)
Theorem C4_sibling_directories :
  forall (before mid inside : list str)
         (first second line n1 n2 filename : str) (L : nat),
    let s0 := run initial before in
    let s2 := run initial (before ++ first :: mid ++ [second]) in
    let s := run initial (before ++ first :: mid ++ second :: inside) in
    let ancestors := pop_deeper L (dir_stack s0) in
    classify first = DirLine n1 -> indent_of first = L ->
    Forall (inside_of L) mid ->
    classify second = DirLine n2 -> indent_of second = L ->
    Forall (inside_of L) inside ->
    classify line = FileLine filename -> L < indent_of line ->
    shallower L ancestors
    /\ dir_stack s2 = ancestors ++ [(L, n2)]
    /\ exists below,
         Forall (fun e => L < fst e /\ pushed_by inside e) below
         /\ path_parts (dir_stack s) line
            = map snd ancestors ++ n2 :: map snd below
         /\ candidate os str_lower str_upper root_dir (dir_stack s) line filename
            = path_join root_dir
                [parts_join (map snd ancestors ++ n2 :: map snd below)
                   filename].
Proof.
  intros before mid inside first second line n1 n2 filename L
         s0 s2 s ancestors Hfirst HL1 Hmid Hsecond HL2 Hinside Hfile Hdeep.
  pose proof (initial_increasing os str_lower str_upper fs root_dir before)
    as Hinc0.
  fold s0 in Hinc0.
  assert (Hanc : shallower L ancestors)
    by now apply pop_deeper_shallower.
  assert (H2 : dir_stack s2 = ancestors ++ [(L, n2)]).
  { assert (E1 : stack_after (dir_stack s0) [first] = ancestors ++ [(L, n1)]).
    { simpl. unfold stack_step. now rewrite Hfirst, HL1. }
    destruct (@stack_after_inside ancestors (L, n1) mid [])
      as (upper & Emid & Hup & _); [exact Hmid|constructor|].
    rewrite app_nil_r in Emid.
    assert (E2 : stack_after ((ancestors ++ [(L, n1)]) ++ upper) [second]
                 = ancestors ++ [(L, n2)]).
    { simpl. unfold stack_step. rewrite Hsecond, HL2.
      rewrite <- app_assoc, pop_deeper_drop.
      - unfold ancestors. now rewrite pop_deeper_done.
      - constructor; [simpl; lia|].
        eapply Forall_impl; [|exact Hup]. simpl. intros e He. lia. }
    unfold s2. rewrite run_stack.
    replace (before ++ first :: mid ++ [second])
      with (before ++ [first] ++ mid ++ [second]) by reflexivity.
    rewrite !stack_after_app.
    rewrite <- (run_stack os str_lower str_upper fs root_dir before initial).
    fold s0. rewrite E1.
    transitivity (stack_after ((ancestors ++ [(L, n1)]) ++ upper) [second]);
      [|exact E2].
    f_equal. exact Emid. }
  split; [exact Hanc|]. split; [exact H2|].
  assert (Hs : dir_stack s = stack_after (dir_stack s2) inside).
  { unfold s, s2. rewrite !run_stack.
    replace (before ++ first :: mid ++ second :: inside)
      with ((before ++ first :: mid ++ [second]) ++ inside).
    - apply stack_after_app.
    - rewrite <- !app_assoc. simpl. rewrite <- !app_assoc. reflexivity. }
  rewrite H2 in Hs.
  destruct (@stack_after_inside ancestors (L, n2) inside [])
    as (upper & Hin_eq & Hup & Horigin); [exact Hinside|constructor|].
  rewrite app_nil_r in Hin_eq. rewrite Hin_eq in Hs.
  destruct (pop_deeper_spec (indent_of line) upper) as (popped & Hsplit & _).
  exists (pop_deeper (indent_of line) upper).
  assert (Hparts : path_parts (dir_stack s) line
                   = map snd ancestors
                     ++ n2 :: map snd (pop_deeper (indent_of line) upper)).
  { unfold path_parts. rewrite Hs.
    rewrite pop_deeper_above by exact Hdeep.
    rewrite !map_app. simpl. rewrite <- app_assoc. reflexivity. }
  split; [|split].
  - rewrite Hsplit in Hup, Horigin.
    apply Forall_app in Hup as [Hup _].
    apply Forall_app in Horigin as [Horigin _].
    apply Forall_forall. intros e He. split.
    + rewrite Forall_forall in Hup. now apply Hup.
    + rewrite Forall_forall in Horigin.
      destruct (Horigin e He) as [[]|Hp]. exact Hp.
  - exact Hparts.
  - unfold candidate, relative_path. now rewrite Hparts.
Qed.

(** C5.  A line that matches neither pattern is put back as it is, the
    stack and the messages stay as they were. *)
Theorem C5_other_line_unchanged :
  forall (s : state) (line : str),
    dir_match line = None -> file_match line = None ->
    body s line =
    {| dir_stack := dir_stack s;
       new_lines := new_lines s ++ [line];
       stdout := stdout s |}.
Proof.
  intros s line Hd Hf. apply body_other. now apply classify_other.
Qed.

(** C6.  Run the script on its own output.  A line the first run
    changed is in link form, and the second run puts every line of
    that output back as it is, unless it takes the line for a file line
    whose candidate path exists. *)
Theorem C6_second_run_keeps_links :
  forall (lines : list str) (i : nat) (linked : str),
    let first := new_lines (program lines) in
    let second := new_lines (program first) in
    let s2 := run initial (firstn i first) in
    nth_error first i = Some linked ->
    (nth_error lines i <> Some linked ->
     exists prefix filename path suffix,
       linked = prefix ++ (lit "[" ++ filename ++ lit "](" ++ path ++ lit ")")
                ++ suffix)
    /\ (nth_error second i = Some linked
        \/ exists token,
             classify linked = FileLine token
             /\ exists_ fs
                  (candidate os str_lower str_upper root_dir
                     (dir_stack s2) linked token) = true).
Proof.
  intros lines i linked first second s2 Hfirst.
  assert (Hlen : length first = length lines)
    by apply run_initial_length.
  assert (Hi : i < length lines).
  { rewrite <- Hlen. apply nth_error_Some. congruence. }
  split.
  - intros Hchanged.
    destruct (nth_error lines i) as [line0|] eqn:Hline0;
      [|apply nth_error_None in Hline0; lia].
    apply nth_error_split in Hline0 as (before & after & Hlines & Hbefore).
    destruct (run_line os str_lower str_upper fs root_dir initial
                before after line0)
      as (out & rest & _ & Hout & Hrun & _ & _).
    assert (Hi_out : nth_error first i = Some out).
    { unfold first, main. simpl new_lines. rewrite Hlines, Hrun.
      rewrite <- Hbefore.
      rewrite <- (run_initial_length os str_lower str_upper fs root_dir before).
      apply nth_error_middle. }
    assert (out = linked) by congruence. subst out.
    destruct (body_cases os str_lower str_upper fs root_dir
                (run initial before) line0)
      as [Hkeep|(filename & _ & _ & Hlink)].
    + rewrite Hkeep in Hout. apply app_inv_head in Hout.
      injection Hout as Hout. congruence.
    + rewrite Hlink in Hout. apply app_inv_head in Hout.
      injection Hout as Hout.
      exists (slice_to line0 (find line0 filename)), filename,
        (replace_char backslash slash
           (relative_path os str_lower str_upper
              (dir_stack (run initial before)) line0 filename)),
        (slice_from line0
           (find line0 filename + Z.of_nat (length filename))%Z).
      symmetry. exact Hout.
  - pose proof Hfirst as Hsplit.
    apply nth_error_split in Hsplit as (before1 & after1 & Hfirst_eq & Hb1).
    assert (Hfirstn : firstn i first = before1).
    { rewrite Hfirst_eq, <- Hb1.
      rewrite firstn_app, Nat.sub_diag, firstn_all. simpl.
      apply app_nil_r. }
    destruct (run_line os str_lower str_upper fs root_dir initial
                before1 after1 linked)
      as (out & rest & _ & Hout & Hrun & _ & _).
    assert (Hi_out : nth_error second i = Some out).
    { unfold second, main. simpl new_lines. rewrite Hfirst_eq, Hrun.
      rewrite <- Hb1.
      rewrite <- (run_initial_length os str_lower str_upper fs root_dir before1).
      apply nth_error_middle. }
    destruct (body_cases os str_lower str_upper fs root_dir
                (run initial before1) linked)
      as [Hkeep|(token & Hc & Hex & _)].
    + left. rewrite Hkeep in Hout. apply app_inv_head in Hout.
      injection Hout as Hout. congruence.
    + right. exists token. unfold s2. rewrite Hfirstn. now split.
Qed.

(** C7.  The rewrite cuts the raw line at the first occurrence of the
    token: what stands before it, the link, what stands after it.  No
    occurrence of the token in the line starts further left. *)
Theorem C7_first_occurrence :
  forall (s : state) (line filename : str),
    let names := map snd (pop_deeper (indent_of line) (dir_stack s)) in
    let relative := parts_join names filename in
    let forward := replace_char backslash slash relative in
    classify line = FileLine filename ->
    exists_ fs (path_join root_dir [relative]) = true ->
    exists prefix suffix,
      line = prefix ++ filename ++ suffix
      /\ (forall before after,
            line = before ++ filename ++ after ->
            length prefix <= length before)
      /\ new_lines (body s line) =
         new_lines s ++
         [prefix ++ (lit "[" ++ filename ++ lit "](" ++ forward ++ lit ")")
          ++ suffix].
Proof.
  intros s line filename names relative forward Hfile Hex.
  pose proof Hfile as Hocc. apply classify_file in Hocc as [_ Hocc].
  apply file_match_occurs in Hocc.
  destruct (@splice_first line filename Hocc)
    as (prefix & suffix & Hline & Hp & Hs & Hmin).
  exists prefix, suffix. split; [exact Hline|]. split; [exact Hmin|].
  rewrite (@body_file_found os str_lower str_upper fs root_dir
             s line filename Hfile Hex).
  simpl new_lines. rewrite Hp, Hs. reflexivity.
Qed.

(** C8.  The directory pattern is tried first.  A line it matches is put
    back as it is, prints nothing, and only changes the stack: pop,
    then push the level with the name, which has no trailing slash.
    This holds also for lines that the file pattern matches, and there
    are such lines. *)
Theorem C8_directory_line_first :
  (forall (s : state) (line group1 : str),
     dir_match line = Some group1 ->
     body s line =
     {| dir_stack := pop_deeper (indent_of line) (dir_stack s)
                       ++ [(indent_of line, rstrip_char slash group1)];
        new_lines := new_lines s ++ [line];
        stdout := stdout s |}
     /\ forall rest, rstrip_char slash group1 <> rest ++ [slash])
  /\ dir_match (ln "- **core/** — domain model") = Some (lit "core/")
  /\ file_match (ln "- **core/** — domain model") = Some (lit "**core/**").
Proof.
  split; [|split; vm_compute; reflexivity].
  intros s line group1 Hd. split.
  - apply body_dir. apply classify_dir. now exists group1.
  - intros rest. apply rstrip_char_trimmed.
Qed.

(** C9.  The output has as many lines as the input, in the order of
    the input.  The round of the i-th input line appends exactly one
    line, which is the i-th output line and is made from that input
    line: for a file line whose candidate path exists it is the line
    with the first occurrence of the token replaced by the link, and in
    every other case it is the input line itself.  What was put out
    before stays as it is. *)
Theorem C9_line_for_line :
  forall lines : list str,
    length (new_lines (program lines)) = length lines
    /\ forall (before after : list str) (line : str),
         lines = before ++ line :: after ->
         let s := run initial before in
         let names := map snd (pop_deeper (indent_of line) (dir_stack s)) in
         exists out,
           new_lines (body s line) = new_lines s ++ [out]
           /\ nth_error (new_lines (program lines)) (length before) = Some out
           /\ firstn (length before) (new_lines (program lines))
              = new_lines (program before)
           /\ (forall filename,
                 classify line = FileLine filename ->
                 exists_ fs (path_join root_dir [parts_join names filename])
                 = true ->
                 exists prefix suffix,
                   line = prefix ++ filename ++ suffix
                   /\ (forall b a,
                         line = b ++ filename ++ a ->
                         length prefix <= length b)
                   /\ out
                      = prefix
                        ++ (lit "[" ++ filename ++ lit "]("
                            ++ replace_char backslash slash
                                 (parts_join names filename)
                            ++ lit ")")
                        ++ suffix)
           /\ ((forall filename,
                  classify line = FileLine filename ->
                  exists_ fs (path_join root_dir [parts_join names filename])
                  = false) ->
               out = line).
Proof.
  intros lines. split; [apply run_initial_length|].
  intros before after line -> s names.
  destruct (run_line os str_lower str_upper fs root_dir initial
              before after line)
    as (out & rest & _ & Hout & Hrun & _ & _).
  fold s in Hout, Hrun.
  exists out. split; [exact Hout|].
  pose proof (run_initial_length os str_lower str_upper fs root_dir before)
    as Hlen.
  split; [|split; [|split]].
  - unfold main. simpl new_lines. rewrite Hrun. unfold s. rewrite <- Hlen.
    apply nth_error_middle.
  - unfold main. simpl new_lines. rewrite Hrun. unfold s. rewrite <- Hlen.
    rewrite firstn_app, Nat.sub_diag, firstn_all. simpl. apply app_nil_r.
  - intros filename Hfile Hex.
    pose proof Hfile as Hocc. apply classify_file in Hocc as [_ Hocc].
    apply file_match_occurs in Hocc.
    destruct (@splice_first line filename Hocc)
      as (prefix & suffix & Hline & Hp & Hs & Hmin).
    exists prefix, suffix. split; [exact Hline|]. split; [exact Hmin|].
    rewrite (@body_file_found os str_lower str_upper fs root_dir
               s line filename Hfile Hex) in Hout.
    simpl new_lines in Hout. rewrite Hp, Hs in Hout.
    apply app_inv_head in Hout. injection Hout as Hout.
    symmetry. exact Hout.
  - intros Hnone.
    destruct (body_cases os str_lower str_upper fs root_dir s line)
      as [Hkeep|(f & Hc & Hex & _)].
    + rewrite Hkeep in Hout. apply app_inv_head in Hout.
      injection Hout as Hout. now symmetry.
    + specialize (Hnone f Hc).
      unfold candidate, relative_path, path_parts in Hex.
      fold names in Hex. congruence.
Qed.

(** C10.  Only existence is asked of the file system.  A file line
    whose candidate path is a directory is rewritten into a link to the
    directory, and the whole run is the same on any file system with
    the same existing paths, whatever the nodes are. *)
Theorem C10_directory_linked :
  (forall (s : state) (line filename : str),
     let names := map snd (pop_deeper (indent_of line) (dir_stack s)) in
     let relative := parts_join names filename in
     let forward := replace_char backslash slash relative in
     classify line = FileLine filename ->
     fs (path_join root_dir [relative]) = Some Directory ->
     exists prefix suffix,
       line = prefix ++ filename ++ suffix
       /\ new_lines (body s line) =
          new_lines s ++
          [prefix ++ (lit "[" ++ filename ++ lit "](" ++ forward ++ lit ")")
           ++ suffix])
  /\ (forall (fs' : filesystem) (lines : list str),
        (forall p, exists_ fs p = exists_ fs' p) ->
        program lines = main os str_lower str_upper fs' root_dir lines)
  /\ new_lines
       (main posix str_lower str_upper
          (only (lit "root/core/models") Directory) (lit "root")
          [ln "- **core/**"; ln "  - models — entity classes"])
     = [ln "- **core/**"; ln "  - [models](core/models) — entity classes"].
Proof.
  split; [|split].
  - intros s line filename names relative forward Hfile Hdir.
    assert (Hex : exists_ fs (path_join root_dir [relative]) = true)
      by (unfold exists_; now rewrite Hdir).
    pose proof Hfile as Hocc. apply classify_file in Hocc as [_ Hocc].
    apply file_match_occurs in Hocc.
    destruct (@splice_first line filename Hocc)
      as (prefix & suffix & Hline & Hp & Hs & _).
    exists prefix, suffix. split; [exact Hline|].
    rewrite (@body_file_found os str_lower str_upper fs root_dir
               s line filename Hfile Hex).
    simpl new_lines. rewrite Hp, Hs. reflexivity.
  - intros fs' lines Hsame. unfold main.
    now rewrite (@run_exists_only os str_lower str_upper fs root_dir
                   fs' lines Hsame initial).
  - vm_compute. reflexivity.
Qed.

End Claims.

(** * The claims on sample inventories *)

Section SampleRuns.

Local Abbreviation run_posix fs :=
  (run_from posix lower_ascii upper_ascii fs (lit "root") initial).
Local Abbreviation main_posix fs :=
  (main posix lower_ascii upper_ascii fs (lit "root")).
Local Abbreviation body_posix fs :=
  (loop_body posix lower_ascii upper_ascii fs (lit "root")).

Lemma C1_file_line_linked_witness :
  let fs := only (order_java posix) RegularFile in
  let s := run_posix fs [ln "- **core/**"; ln "  - **models/**"] in
  let line := ln "    - Order.java — entity" in
  exists prefix suffix,
    line = prefix ++ lit "Order.java" ++ suffix
    /\ new_lines (body_posix fs s line)
       = new_lines s ++
         [prefix ++ lit "[Order.java](core/models/Order.java)" ++ suffix]
    /\ stdout (body_posix fs s line) = stdout s
    /\ (lit "Order.java" <> [hyphen] ->
        exists lead ws,
          prefix = lead ++ hyphen :: ws
          /\ forallb isspace lead = true
          /\ forallb isspace ws = true).
Proof.
  intros fs s line.
  destruct (@C1_file_line_linked posix lower_ascii upper_ascii fs (lit "root"))
    as [H _].
  destruct (H s line (lit "Order.java")) as (_ & _ & _ & Hout);
    [vm_compute; reflexivity|vm_compute; reflexivity|].
  exact Hout.
Defined.

Lemma C2_missing_file_kept_witness :
  let line := ln "  - ghost.txt — not there" in
  let final :=
    main_posix nothing [ln "- **core/**"; line; ln "- README.md — overview"] in
  nth_error (new_lines final) 1 = Some line
  /\ length (new_lines final) = 3
  /\ In (lit "File not found: root/core/ghost.txt") (stdout final)
  /\ last (stdout final) [] = lit "Inventory processing complete.".
Proof.
  intros line final.
  destruct (@C2_missing_file_kept posix lower_ascii upper_ascii nothing
              (lit "root") [ln "- **core/**"] [ln "- README.md — overview"]
              line (lit "ghost.txt"))
    as (_ & _ & Hline & Hlen & Hmsg & Hlast);
    [vm_compute; reflexivity|vm_compute; reflexivity|].
  repeat split; assumption.
Defined.

Lemma C3_stack_increasing_witness :
  let s1 := run_posix nothing [ln "- **core/**"; ln "  - **models/**"] in
  increasing (dir_stack s1)
  /\ dir_stack s1 = [(0, lit "core"); (2, lit "models")].
Proof.
  intros s1.
  destruct (@C3_stack_increasing posix lower_ascii upper_ascii nothing
              (lit "root") [ln "- **core/**"] (ln "  - **models/**"))
    as (Hinc & _ & Hdir & _).
  split; [exact Hinc|].
  destruct (Hdir (lit "models")) as [Hstack _]; [vm_compute; reflexivity|].
  exact Hstack.
Defined.

(** C3 as the specification has it fails: after a directory line the
    top of the stack is at the level of the line, not strictly
    shallower; and a plain line at level 0 leaves the entries of the
    lines before it, at levels 0 and 2, on the stack. *)
Lemma C3_counterexample :
  let after_dir := run_posix nothing [ln "- **core/**"] in
  let after_notes := run_posix nothing with_notes in
  indent_of (ln "- **core/**") = 0
  /\ dir_stack after_dir = [(0, lit "core")]
  /\ ~ shallower (indent_of (ln "- **core/**")) (dir_stack after_dir)
  /\ classify (ln "Notes on the layout") = Other
  /\ indent_of (ln "Notes on the layout") = 0
  /\ dir_stack after_notes = [(0, lit "core"); (2, lit "models")]
  /\ ~ shallower (indent_of (ln "Notes on the layout")) (dir_stack after_notes).
Proof.
  intros after_dir after_notes.
  assert (Hno : forall rest, ~ shallower 0 ((0, lit "core") :: rest)).
  { intros rest H. inversion H as [|? ? Hlt _]. simpl in Hlt. lia. }
  repeat split; try (vm_compute; reflexivity); apply Hno.
Qed.

Lemma C4_sibling_directories_witness :
  let fs := nothing in
  let doc :=
    [ln "- **api/**"; ln "  - Api.java — entry point"; ln "- **core/**";
     ln "  - **models/**"] in
  let line := ln "    - Order.java — entity" in
  dir_stack (run_posix fs (firstn 3 doc)) = [(0, lit "core")]
  /\ exists below,
       Forall (fun e => 0 < fst e /\ pushed_by [ln "  - **models/**"] e) below
       /\ path_parts (dir_stack (run_posix fs doc)) line
          = lit "core" :: map snd below
       /\ candidate posix lower_ascii upper_ascii (lit "root")
            (dir_stack (run_posix fs doc)) line (lit "Order.java")
          = posixpath_join (lit "root")
              [join_parts posix lower_ascii upper_ascii
                 (lit "core" :: map snd below) (lit "Order.java")].
Proof.
  intros fs doc line.
  destruct (@C4_sibling_directories posix lower_ascii upper_ascii fs
              (lit "root") [] [ln "  - Api.java — entry point"]
              [ln "  - **models/**"] (ln "- **api/**") (ln "- **core/**")
              line (lit "api") (lit "core") (lit "Order.java") 0)
    as (_ & Hstack & below & Hbelow & Hparts & Hcand);
    try (vm_compute; reflexivity).
  - repeat constructor.
  - repeat constructor.
  - vm_compute. lia.
  - split; [exact Hstack|]. exists below.
    split; [exact Hbelow|]. split; [exact Hparts|exact Hcand].
Defined.

(** C4 as the specification has it fails: a file line at the level of
    the two directory lines, right after the second, pops the second
    directory and is looked up under the root. *)
Lemma C4_counterexample :
  let s := run_posix nothing [ln "- **api/**"; ln "- **core/**"] in
  let line := ln "- README.md — overview" in
  classify (ln "- **api/**") = DirLine (lit "api")
  /\ indent_of (ln "- **api/**") = 0
  /\ classify (ln "- **core/**") = DirLine (lit "core")
  /\ indent_of (ln "- **core/**") = 0
  /\ dir_stack s = [(0, lit "core")]
  /\ classify line = FileLine (lit "README.md")
  /\ path_parts (dir_stack s) line = []
  /\ candidate posix lower_ascii upper_ascii (lit "root") (dir_stack s) line
       (lit "README.md") = lit "root/README.md"
  /\ stdout (main_posix nothing siblings)
     = [lit "File not found: root/README.md";
        lit "Inventory processing complete."].
Proof. repeat split; vm_compute; reflexivity. Qed.

Lemma C5_other_line_unchanged_witness :
  body_posix nothing initial (ln "# Workspace inventory")
  = {| dir_stack := [];
       new_lines := [ln "# Workspace inventory"];
       stdout := [] |}.
Proof.
  apply (@C5_other_line_unchanged posix lower_ascii upper_ascii nothing
           (lit "root") initial (ln "# Workspace inventory"));
    vm_compute; reflexivity.
Defined.

Lemma C6_second_run_keeps_links_witness :
  let fs := only (order_java posix) RegularFile in
  let linked := ln "    - [Order.java](core/models/Order.java) — entity" in
  let first := new_lines (main_posix fs nested) in
  let second := new_lines (main_posix fs first) in
  (exists prefix filename path suffix,
     linked = prefix ++ (lit "[" ++ filename ++ lit "](" ++ path ++ lit ")")
              ++ suffix)
  /\ (nth_error second 2 = Some linked
      \/ exists token,
           classify linked = FileLine token
           /\ exists_ fs
                (candidate posix lower_ascii upper_ascii (lit "root")
                   (dir_stack (run_posix fs (firstn 2 first))) linked token)
              = true).
Proof.
  intros fs linked first second.
  destruct (@C6_second_run_keeps_links posix lower_ascii upper_ascii fs
              (lit "root") nested 2 linked) as [Hform Hkeep];
    [vm_compute; reflexivity|].
  split; [|exact Hkeep].
  apply Hform. vm_compute. discriminate.
Defined.

Lemma C7_first_occurrence_witness :
  let fs := only (lit "root/a.txt") RegularFile in
  let line := ln "- a.txt — copy of a.txt" in
  exists prefix suffix,
    line = prefix ++ lit "a.txt" ++ suffix
    /\ (forall before after,
          line = before ++ lit "a.txt" ++ after ->
          length prefix <= length before)
    /\ new_lines (body_posix fs initial line)
       = [prefix ++ lit "[a.txt](a.txt)" ++ suffix].
Proof.
  intros fs line.
  apply (@C7_first_occurrence posix lower_ascii upper_ascii fs (lit "root")
           initial line (lit "a.txt"));
    vm_compute; reflexivity.
Defined.

Lemma C8_directory_line_first_witness :
  body_posix nothing initial (ln "- **core/** — domain model")
  = {| dir_stack := [(0, lit "core")];
       new_lines := [ln "- **core/** — domain model"];
       stdout := [] |}.
Proof.
  destruct (@C8_directory_line_first posix lower_ascii upper_ascii nothing
              (lit "root")) as [H _].
  destruct (H initial (ln "- **core/** — domain model") (lit "core/"))
    as [Hbody _]; [vm_compute; reflexivity|].
  exact Hbody.
Defined.

Lemma C9_line_for_line_witness :
  let fs := only (order_java posix) RegularFile in
  let line := ln "    - Order.java — entity" in
  exists out,
    nth_error (new_lines (main_posix fs nested)) 2 = Some out
    /\ firstn 2 (new_lines (main_posix fs nested))
       = new_lines (main_posix fs (firstn 2 nested))
    /\ exists prefix suffix,
         line = prefix ++ lit "Order.java" ++ suffix
         /\ (forall b a,
               line = b ++ lit "Order.java" ++ a ->
               length prefix <= length b)
         /\ out = prefix ++ lit "[Order.java](core/models/Order.java)"
                  ++ suffix.
Proof.
  intros fs line.
  destruct (@C9_line_for_line posix lower_ascii upper_ascii fs (lit "root")
              nested) as [_ H].
  destruct (H (firstn 2 nested) [] line eq_refl)
    as (out & _ & Hnth & Hfirst & Hlink & _).
  exists out. split; [exact Hnth|]. split; [exact Hfirst|].
  apply (Hlink (lit "Order.java")); vm_compute; reflexivity.
Defined.

Lemma C10_directory_linked_witness :
  let fs := only (lit "root/core/models") Directory in
  let s := run_posix fs [ln "- **core/**"] in
  let line := ln "  - models — entity classes" in
  exists prefix suffix,
    line = prefix ++ lit "models" ++ suffix
    /\ new_lines (body_posix fs s line)
       = new_lines s ++ [prefix ++ lit "[models](core/models)" ++ suffix].
Proof.
  intros fs s line.
  destruct (@C10_directory_linked posix lower_ascii upper_ascii fs
              (lit "root")) as [H _].
  apply (H s line (lit "models")); vm_compute; reflexivity.
Defined.

(** ** Further runs *)

(** The nested inventory under [ntpath], with the root of the script. *)
Example nested_on_windows :
  let fs :=
    only (script_root_dir ++ lit "\core\models\Order.java") RegularFile in
  main nt lower_ascii upper_ascii fs script_root_dir nested
  = {| dir_stack := [(0, lit "core"); (2, lit "models")];
       new_lines := nested_linked;
       stdout := [lit "Inventory processing complete."] |}.
Proof. vm_compute. reflexivity. Qed.

(** The first scenario of the specification. *)
Example user_java :
  new_lines
    (main_posix (only (lit "root/core/User.java") RegularFile)
       [ln "- **core/**"; ln "  - User.java — model"])
  = [ln "- **core/**"; ln "  - [User.java](core/User.java) — model"].
Proof. vm_compute. reflexivity. Qed.

(** A linked line is a file line again: its token is the whole link.
    As long as nothing exists under that name the second run changes
    no line, but it prints a message for the link. *)
Example linked_line_is_file_line :
  classify (ln "    - [Order.java](core/models/Order.java) — entity")
  = FileLine (lit "[Order.java](core/models/Order.java)").
Proof. vm_compute. reflexivity. Qed.

Example second_run :
  main_posix (only (order_java posix) RegularFile) nested_linked
  = {| dir_stack := [(0, lit "core"); (2, lit "models")];
       new_lines := nested_linked;
       stdout :=
         [lit "File not found: root/core/models/[Order.java](core/models/Order.java)";
          lit "Inventory processing complete."] |}.
Proof. vm_compute. reflexivity. Qed.

(** When the path made of the link exists, the second run wraps the
    link in a link. *)
Example second_run_links_again :
  new_lines
    (main_posix
       (only (lit "root/core/models/[Order.java](core/models/Order.java)")
          RegularFile)
       nested_linked)
  = [ln "- **core/**"; ln "  - **models/**";
     ln "    - [[Order.java](core/models/Order.java)](core/models/[Order.java](core/models/Order.java)) — entity"].
Proof. vm_compute. reflexivity. Qed.

(** The token [-] first occurs as the bullet, and the bullet is what
    the rewrite replaces. *)
Example hyphen_token :
  new_lines
    (main_posix (only (lit "root/-") RegularFile) [ln "- - — standard input"])
  = [ln "[-](-) - — standard input"].
Proof. vm_compute. reflexivity. Qed.

(** Only the first of two occurrences is replaced. *)
Example token_twice :
  new_lines
    (main_posix (only (lit "root/a.txt") RegularFile)
       [ln "- a.txt — copy of a.txt"])
  = [ln "- [a.txt](a.txt) — copy of a.txt"].
Proof. vm_compute. reflexivity. Qed.

(** [posixpath.join] drops what comes before an absolute component. *)
Example absolute_token :
  new_lines
    (main_posix (only (lit "/etc/hosts") RegularFile)
       [ln "- **core/**"; ln "  - /etc/hosts — host table"])
  = [ln "- **core/**"; ln "  - [/etc/hosts](/etc/hosts) — host table"].
Proof. vm_compute. reflexivity. Qed.

(** A file line pops like a directory line: after it a deeper line no
    longer belongs to the directory that was open. *)
Example file_line_pops :
  stdout
    (main_posix nothing
       [ln "- **core/**"; ln "- README.md — overview";
        ln "  - User.java — model"])
  = [lit "File not found: root/README.md";
     lit "File not found: root/User.java";
     lit "Inventory processing complete."].
Proof. vm_compute. reflexivity. Qed.

End SampleRuns.

(** * Further properties *)

Import Files Components Edges.

(** ** The two patterns *)

Section PatternFacts.

(** The greedy choice returns the result of the largest count that
    succeeds. *)
Lemma first_down_first (A : Type) (f : nat -> option A) (n : nat) (r : A) :
  first_down f n = Some r ->
  exists m, 1 <= m <= n /\ f m = Some r
            /\ forall m', m < m' <= n -> f m' = None.
Proof.
  induction n as [|n IH]; simpl; [discriminate|].
  destruct (f (S n)) eqn:Hf.
  - intros [= ->]. exists (S n). repeat split; [lia|lia|exact Hf|].
    intros m' Hm'. lia.
  - intros H. destruct (IH H) as (m & Hm & Hfm & Hnone).
    exists m. repeat split; [lia|lia|exact Hfm|].
    intros m' Hm'. destruct (Nat.eq_dec m' (S n)) as [->|Hne];
      [exact Hf|apply Hnone; lia].
Qed.

Lemma first_down_top (A : Type) (f : nat -> option A) (n : nat) (r : A) :
  1 <= n -> f n = Some r -> first_down f n = Some r.
Proof.
  intros Hn Hf. destruct n as [|n]; [lia|]. simpl. now rewrite Hf.
Qed.

(** A run of characters of the class that is followed by a character
    outside the class, or by nothing, is the whole span. *)
Lemma span_run (cls : char -> bool) (run rest : str) :
  forallb cls run = true ->
  match rest with [] => True | c :: _ => cls c = false end ->
  span cls (run ++ rest) = length run.
Proof.
  intros Hrun Hstop. induction run as [|c run IH]; simpl.
  - destruct rest as [|c rest]; [reflexivity|]. simpl. now rewrite Hstop.
  - simpl in Hrun. apply andb_prop in Hrun as [Hc Hrun].
    rewrite Hc. f_equal. now apply IH.
Qed.

Lemma span_more (cls : char -> bool) (s : str) (m : nat) (c : char) (r : str) :
  m <= span cls s -> skipn m s = c :: r -> cls c = true ->
  S m <= span cls s.
Proof.
  revert m. induction s as [|x s IH]; intros m Hm Hskip Hc.
  - destruct m; discriminate.
  - simpl in Hm |- *. destruct (cls x) eqn:Hx.
    + destruct m as [|m]; [lia|]. simpl in Hskip.
      apply le_n_S. apply IH; [lia|exact Hskip|exact Hc].
    + assert (m = 0) by lia. subst m. simpl in Hskip.
      injection Hskip as -> _. congruence.
Qed.

Lemma skipn_run (run rest : str) : skipn (length run) (run ++ rest) = rest.
Proof.
  rewrite skipn_app, skipn_all, Nat.sub_diag. reflexivity.
Qed.

Lemma firstn_run (run rest : str) : firstn (length run) (run ++ rest) = run.
Proof.
  rewrite firstn_app, firstn_all, Nat.sub_diag. simpl. apply app_nil_r.
Qed.

Lemma nonempty_length (s : str) : s <> [] -> 1 <= length s.
Proof. destruct s; [congruence|simpl; lia]. Qed.

Lemma emdash_not_space : isspace emdash = false.
Proof. reflexivity. Qed.

Lemma star_not_space : isspace star = false.
Proof. reflexivity. Qed.

(** A stripped line of the shape of a file bullet is matched, and its
    token is group 1. *)
Lemma file_re_complete (ws1 filename ws2 rest : str) :
  ws1 <> [] -> forallb isspace ws1 = true ->
  filename <> [] -> forallb (fun c => negb (isspace c)) filename = true ->
  ws2 <> [] -> forallb isspace ws2 = true ->
  match_group1 file_re
    (hyphen :: ws1 ++ filename ++ ws2 ++ emdash :: rest)
  = Some filename.
Proof.
  intros Hne1 Hsp1 Hne Hns Hne2 Hsp2.
  unfold match_group1, file_re. simpl run. rewrite ?N.eqb_refl.
  assert (S1 : span isspace (ws1 ++ filename ++ ws2 ++ emdash :: rest)
               = length ws1).
  { apply span_run; [exact Hsp1|].
    destruct filename as [|c fn]; [congruence|]. simpl.
    simpl in Hns. apply andb_prop in Hns as [Hc _].
    now apply negb_true_iff in Hc. }
  assert (S2 : span (fun c => negb (isspace c))
                 (filename ++ ws2 ++ emdash :: rest) = length filename).
  { apply span_run; [exact Hns|].
    destruct ws2 as [|c w]; [congruence|]. simpl.
    simpl in Hsp2. apply andb_prop in Hsp2 as [Hc _]. now rewrite Hc. }
  assert (S3 : span isspace (ws2 ++ emdash :: rest) = length ws2).
  { apply span_run; [exact Hsp2|]. exact emdash_not_space. }
  rewrite S1. apply first_down_top; [now apply nonempty_length|].
  rewrite skipn_run, S2. apply first_down_top; [now apply nonempty_length|].
  rewrite skipn_run, S3. apply first_down_top; [now apply nonempty_length|].
  rewrite skipn_run. simpl. rewrite ?N.eqb_refl, firstn_run. reflexivity.
Qed.

(** What a match of the directory pattern says about the stripped
    line, and that such a line is matched.  Group 1 runs up to the
    closing stars: a slash before them belongs to it. *)
Lemma dir_re_shape (s group1 : str) :
  match_group1 dir_re s = Some group1 <->
  exists ws rest,
    s = hyphen :: ws ++ star :: star :: group1 ++ star :: star :: rest
    /\ ws <> [] /\ forallb isspace ws = true
    /\ group1 <> []
    /\ forallb (fun c => negb (N.eqb c star)) group1 = true.
Proof.
  split.
  - unfold match_group1, dir_re. destruct s as [|x s]; simpl run;
      [discriminate|].
    destruct (N.eqb_spec x hyphen) as [->|]; [|discriminate].
    intros H.
    apply first_down_some in H as (m1 & Hm1 & H).
    destruct (skipn m1 s) as [|y1 s1] eqn:Hs1; [discriminate|].
    destruct (N.eqb_spec y1 star) as [->|]; [|discriminate].
    destruct s1 as [|y2 s2]; [discriminate|].
    destruct (N.eqb_spec y2 star) as [->|]; [|discriminate].
    apply first_down_first in H as (m2 & Hm2 & H & Hfirst).
    destruct (span_firstn isspace s (m:=m1)) as [Ha1 Hl1]; [lia|].
    destruct (span_firstn (fun c => negb (N.eqb c star)) s2 (m:=m2))
      as [Ha2 Hl2]; [lia|].
    assert (Hclose : exists rest, skipn m2 s2 = star :: star :: rest
                                  /\ group1 = firstn m2 s2).
    { destruct (skipn m2 s2) as [|z s3] eqn:Hs3; [discriminate|].
      destruct (N.eqb_spec z slash) as [->|Hz].
      - (* the optional slash taken: one more character for the group
           would have matched first *)
        destruct s3 as [|z1 s4].
        + destruct (N.eqb_spec slash star); discriminate.
        + destruct (N.eqb_spec z1 star) as [->|Hz1].
          * destruct s4 as [|z2 s5];
              [destruct (N.eqb_spec slash star); discriminate|].
            destruct (N.eqb_spec z2 star) as [->|Hz2];
              [|destruct (N.eqb_spec slash star); discriminate].
            exfalso.
            assert (Hmore : S m2 <= span (fun c => negb (N.eqb c star)) s2)
              by (apply span_more with (c := slash) (r := star :: star :: s5);
                  [lia|exact Hs3|reflexivity]).
            specialize (Hfirst (S m2)).
            assert (Hskip : skipn (S m2) s2 = star :: star :: s5).
            { replace (S m2) with (1 + m2) by lia.
              rewrite <- skipn_skipn, Hs3. reflexivity. }
            rewrite Hskip in Hfirst. simpl in Hfirst.
            assert (Some (firstn (S m2) s2) = None) by (apply Hfirst; lia).
            discriminate.
          * destruct (N.eqb_spec slash star); discriminate.
      - destruct (N.eqb_spec z star) as [->|]; [|discriminate].
        destruct s3 as [|z1 s4]; [discriminate|].
        destruct (N.eqb_spec z1 star) as [->|]; [|discriminate].
        exists s4. split; [reflexivity|]. now injection H. }
    destruct Hclose as (rest & Hs3 & ->).
    exists (firstn m1 s), rest.
    rewrite <- Hs3, (firstn_skipn m2 s2).
    change (star :: star :: s2) with ([star; star] ++ s2).
    replace (firstn m1 s ++ [star; star] ++ s2) with s
      by (simpl; rewrite <- Hs1; symmetry; apply firstn_skipn).
    repeat split; try assumption.
    + intros E. rewrite E in Hl1. simpl in Hl1. lia.
    + intros E. rewrite E in Hl2. simpl in Hl2. lia.
  - intros (ws & rest & -> & Hne1 & Hsp1 & Hne & Hns).
    unfold match_group1, dir_re. simpl run. rewrite ?N.eqb_refl.
    assert (S1 : span isspace
                   (ws ++ star :: star :: group1 ++ star :: star :: rest)
                 = length ws)
      by (apply span_run; [exact Hsp1|exact star_not_space]).
    assert (S2 : span (fun c => negb (N.eqb c star))
                   (group1 ++ star :: star :: rest) = length group1)
      by (apply span_run; [exact Hns|reflexivity]).
    rewrite S1. apply first_down_top; [now apply nonempty_length|].
    rewrite skipn_run. simpl. rewrite ?N.eqb_refl, S2.
    apply first_down_top; [now apply nonempty_length|].
    rewrite skipn_run, firstn_run. reflexivity.
Qed.

End PatternFacts.

(** ** White space around a line *)

Section StripFacts.

Lemma dropwhile_all (p : char -> bool) (run rest : str) :
  forallb p run = true -> dropwhile p (run ++ rest) = dropwhile p rest.
Proof.
  induction run as [|c run IH]; simpl; [reflexivity|].
  intros H. apply andb_prop in H as [Hc Hrun]. rewrite Hc. now apply IH.
Qed.

Lemma dropwhile_stop (p : char -> bool) (s : str) :
  match s with [] => True | c :: _ => p c = false end ->
  dropwhile p s = s.
Proof. destruct s as [|c s]; simpl; [reflexivity|]. now intros ->. Qed.

Lemma dropwhile_none (p : char -> bool) (run : str) :
  forallb p run = true -> dropwhile p run = [].
Proof.
  intros H. rewrite <- (app_nil_r run). now rewrite dropwhile_all.
Qed.

Lemma rstrip_ends_dark (s : str) : ends_dark (rstrip s).
Proof.
  unfold rstrip. intros r c H.
  apply (f_equal (@rev char)) in H.
  rewrite rev_involutive, rev_app_distr in H. simpl in H.
  pose proof (dropwhile_head isspace (rev s)) as Hhead.
  now rewrite H in Hhead.
Qed.

Lemma rstrip_prefix (s : str) :
  exists trail, s = rstrip s ++ trail /\ forallb isspace trail = true.
Proof.
  unfold rstrip.
  destruct (dropwhile_suffix isspace (rev s)) as (t & Ht & Hall).
  exists (rev t). split.
  - rewrite <- rev_app_distr, <- Ht. now rewrite rev_involutive.
  - rewrite forallb_forall in *. intros x Hx. apply Hall.
    now apply in_rev.
Qed.


Lemma strip_ends_dark (s : str) : ends_dark (strip s).
Proof. apply rstrip_ends_dark. Qed.

(** A stripped line with the white space on both sides of it. *)
Lemma strip_split (line : str) :
  exists lead trail,
    line = lead ++ strip line ++ trail
    /\ forallb isspace lead = true /\ forallb isspace trail = true.
Proof.
  destruct (dropwhile_suffix isspace line) as (lead & Hlead & Hspace).
  destruct (rstrip_prefix (lstrip line)) as (trail & Htrail & Htspace).
  exists lead, trail. repeat split; [|exact Hspace|exact Htspace].
  unfold strip. rewrite <- Htrail. exact Hlead.
Qed.

(** White space put around a dark-edged string is stripped again. *)
Lemma strip_around (lead core trail : str) :
  forallb isspace lead = true -> forallb isspace trail = true ->
  starts_dark core -> ends_dark core ->
  strip (lead ++ core ++ trail) = core.
Proof.
  intros Hlead Htrail Hstart Hend. unfold strip, lstrip.
  rewrite dropwhile_all by exact Hlead.
  destruct core as [|c core].
  - simpl. rewrite dropwhile_none by exact Htrail. reflexivity.
  - rewrite dropwhile_stop by exact Hstart.
    unfold rstrip. rewrite rev_app_distr.
    rewrite dropwhile_all.
    + rewrite dropwhile_stop; [apply rev_involutive|].
      destruct (rev (c :: core)) as [|x r] eqn:Hrev; [exact I|].
      apply (Hend (rev r) x).
      rewrite <- (rev_involutive (c :: core)), Hrev. reflexivity.
    + rewrite forallb_forall in *. intros x Hx. apply Htrail.
      now apply in_rev.
Qed.

Lemma indent_of_lead (lead rest : str) :
  forallb isspace lead = true -> starts_dark rest ->
  indent_of (lead ++ rest) = length lead.
Proof.
  intros Hlead Hdark. unfold indent_of, lstrip.
  rewrite dropwhile_all by exact Hlead.
  rewrite dropwhile_stop by exact Hdark.
  rewrite length_app. lia.
Qed.

End StripFacts.

(** ** More on the stack *)

Section StackMore.

Lemma filter_all (A : Type) (p : A -> bool) (l : list A) :
  Forall (fun x => p x = true) l -> filter p l = l.
Proof.
  induction 1 as [|x l Hx _ IH]; simpl; [reflexivity|].
  now rewrite Hx, IH.
Qed.

(** On an increasing stack the loop leaves the entries strictly
    shallower than [indent], all of them. *)
Lemma pop_deeper_filter (indent : nat) (stack : list entry) :
  increasing stack ->
  pop_deeper indent stack = filter (fun e => fst e <? indent) stack.
Proof.
  induction stack as [|top below IH] using rev_ind; intros Hinc;
    [reflexivity|].
  pose proof (@increasing_below_top below top Hinc) as Hbelow.
  apply increasing_app in Hinc as (Hinc & _ & _).
  rewrite pop_deeper_top, filter_app. simpl.
  destruct (Nat.leb_spec indent (fst top)) as [Hge|Hlt].
  - destruct (Nat.ltb_spec (fst top) indent) as [|_]; [lia|].
    rewrite app_nil_r. now apply IH.
  - destruct (Nat.ltb_spec (fst top) indent) as [_|]; [|lia].
    rewrite filter_all; [reflexivity|].
    eapply Forall_impl; [|exact Hbelow]. simpl. intros e He.
    apply Nat.ltb_lt. lia.
Qed.

(** An increasing stack below level [indent] has at most [indent]
    entries. *)
Lemma increasing_length (stack : list entry) :
  increasing stack ->
  forall indent, shallower indent stack -> length stack <= indent.
Proof.
  induction stack as [|top below IH] using rev_ind; intros Hinc indent Hsh;
    [simpl; lia|].
  pose proof (@increasing_below_top below top Hinc) as Hbelow.
  apply increasing_app in Hinc as (Hinc & _ & _).
  apply Forall_app in Hsh as [_ Htop].
  inversion Htop as [|? ? Hlt _]; subst.
  rewrite length_app. simpl. specialize (IH Hinc (fst top) Hbelow). lia.
Qed.

Lemma pop_deeper_zero (stack : list entry) : pop_deeper 0 stack = [].
Proof.
  destruct (pop_deeper_spec 0 stack) as (_ & _ & _ & [E|(b & t & _ & Ht)]);
    [exact E|lia].
Qed.

Lemma pop_deeper_sub (indent : nat) (stack : list entry) (e : entry) :
  In e (pop_deeper indent stack) -> In e stack.
Proof.
  intros H. destruct (pop_deeper_spec indent stack) as (popped & Heq & _).
  rewrite Heq. apply in_or_app. now left.
Qed.

(** Whatever is on the stack was there before or was pushed by a
    directory line. *)
Lemma stack_after_origin (lines : list str) :
  forall (stack : list entry) (e : entry),
    In e (stack_after stack lines) -> In e stack \/ pushed_by lines e.
Proof.
  induction lines as [|line lines IH]; intros stack e He; [now left|].
  simpl in He. apply IH in He as [He|(l & Hl & Hc)].
  - unfold stack_step in He. destruct (classify line) as [d|f|] eqn:Hc.
    + apply in_app_or in He as [He|[<-|[]]].
      * left. eapply pop_deeper_sub. exact He.
      * right. exists line. repeat split; [now left|exact Hc].
    + left. eapply pop_deeper_sub. exact He.
    + now left.
  - right. exists l. split; [now right|exact Hc].
Qed.

Lemma rstrip_char_prefix (c : char) (s : str) :
  exists t, s = rstrip_char c s ++ t.
Proof.
  unfold rstrip_char.
  destruct (dropwhile_suffix (N.eqb c) (rev s)) as (t & Ht & _).
  exists (rev t). rewrite <- rev_app_distr, <- Ht. now rewrite rev_involutive.
Qed.

(** The name a directory line pushes has no star in it. *)
Lemma dirname_no_star (line dirname : str) :
  classify line = DirLine dirname -> ~ In star dirname.
Proof.
  intros H Hin.
  apply classify_dir in H as (g & Hg & ->).
  unfold dir_match in Hg. apply dir_re_shape in Hg
    as (_ & _ & _ & _ & _ & _ & Hns).
  destruct (rstrip_char_prefix slash g) as (t & Ht).
  rewrite forallb_forall in Hns.
  specialize (Hns star). rewrite N.eqb_refl in Hns.
  assert (negb true = true); [|discriminate].
  apply Hns. rewrite Ht. apply in_or_app. now left.
Qed.

End StackMore.

(** ** The loop, once more *)

Section Further.
Variable os : os_name.
Variables str_lower str_upper : str -> str.
Variable fs : filesystem.
Variable root_dir : str.

Local Abbreviation body := (loop_body os str_lower str_upper fs root_dir).
Local Abbreviation run := (run_from os str_lower str_upper fs root_dir).
Local Abbreviation program := (main os str_lower str_upper fs root_dir).
Local Abbreviation path_join := (os_path_join os str_lower str_upper).
Local Abbreviation parts_join := (join_parts os str_lower str_upper).
Local Abbreviation full_path := (candidate os str_lower str_upper root_dir).
Local Abbreviation rel_path := (relative_path os str_lower str_upper).

(** X1.  A line is a directory line exactly when, stripped, it is a
    hyphen, white space, two stars, a run of characters other than the
    star, two stars, and anything.  The run is group 1 whole, a slash
    before the closing stars included (the optional slash of the
    pattern never matches); the name is the run without its trailing
    slashes, so it has no star and no slash at its end. *)
Theorem directory_line_shape :
  forall (line dirname : str),
    (classify line = DirLine dirname <->
     exists ws group1 rest,
       strip line
       = hyphen :: ws ++ star :: star :: group1 ++ star :: star :: rest
       /\ ws <> [] /\ forallb isspace ws = true
       /\ group1 <> []
       /\ ~ In star group1
       /\ dirname = rstrip_char slash group1)
    /\ (classify line = DirLine dirname ->
        ~ In star dirname /\ forall r, dirname <> r ++ [slash]).
Proof.
  intros line dirname. split.
  - rewrite classify_dir. unfold dir_match. split.
    + intros (g & Hg & ->). apply dir_re_shape in Hg
        as (ws & rest & Hs & Hne1 & Hsp & Hne & Hns).
      exists ws, g, rest. repeat split; try assumption.
      intros Hin. rewrite forallb_forall in Hns.
      specialize (Hns star Hin). now rewrite N.eqb_refl in Hns.
    + intros (ws & g & rest & Hs & Hne1 & Hsp & Hne & Hns & ->).
      exists g. split; [|reflexivity].
      apply dir_re_shape. exists ws, rest. repeat split; try assumption.
      apply forallb_forall. intros x Hx.
      destruct (N.eqb_spec x star) as [->|]; [contradiction|reflexivity].
  - intros H. split; [now apply (@dirname_no_star line)|].
    apply classify_dir in H as (g & _ & ->). intros r.
    apply rstrip_char_trimmed.
Qed.

(** X2.  A line is a file line exactly when the directory pattern does
    not match it and, stripped, it is a hyphen, white space, a token
    without white space, white space, the dash, and anything.  The
    token is group 1. *)
Theorem file_line_shape :
  forall (line filename : str),
    classify line = FileLine filename <->
    dir_match line = None
    /\ exists ws1 ws2 rest,
         strip line = hyphen :: ws1 ++ filename ++ ws2 ++ emdash :: rest
         /\ ws1 <> [] /\ forallb isspace ws1 = true
         /\ filename <> []
         /\ forallb (fun c => negb (isspace c)) filename = true
         /\ ws2 <> [] /\ forallb isspace ws2 = true.
Proof.
  intros line filename. rewrite classify_file. unfold file_match.
  split; intros [Hd H]; (split; [exact Hd|]).
  - now apply file_re_shape.
  - destruct H as (ws1 & ws2 & rest & -> & H1 & H2 & H3 & H4 & H5 & H6).
    now apply file_re_complete.
Qed.


(** X4.  In a run the pop keeps exactly the entries strictly shallower
    than the line: the path parts of a file line are the names of all
    those entries, bottom first, and a directory line leaves them with
    its own entry on top. *)
Theorem pop_keeps_shallower :
  forall (before : list str) (line : str),
    let stack := dir_stack (run initial before) in
    let kept := filter (fun e => fst e <? indent_of line) stack in
    path_parts stack line = map snd kept
    /\ (forall filename,
          classify line = FileLine filename ->
          dir_stack (run initial (before ++ [line])) = kept)
    /\ (forall dirname,
          classify line = DirLine dirname ->
          dir_stack (run initial (before ++ [line]))
          = kept ++ [(indent_of line, dirname)]).
Proof.
  intros before line stack kept.
  pose proof (initial_increasing os str_lower str_upper fs root_dir before)
    as Hinc.
  fold stack in Hinc.
  pose proof (@pop_deeper_filter (indent_of line) stack Hinc) as Hpop.
  fold kept in Hpop.
  assert (Hstep : dir_stack (run initial (before ++ [line]))
                  = stack_step stack line).
  { rewrite run_app. simpl. apply body_stack. }
  unfold stack_step in Hstep.
  split; [unfold path_parts; now rewrite Hpop|]. split.
  - intros filename Hc. rewrite Hc in Hstep. now rewrite Hstep.
  - intros dirname Hc. rewrite Hc in Hstep. now rewrite Hstep, Hpop.
Qed.

(** X5.  In a run a line indented by [n] characters has at most [n]
    path parts.  A file line that is not indented has none, whatever
    the stack: it is looked up as [root_dir] joined with the token. *)
Theorem path_parts_bound :
  (forall (before : list str) (line : str),
     length (path_parts (dir_stack (run initial before)) line)
     <= indent_of line)
  /\ (forall (stack : list entry) (line filename : str),
        indent_of line = 0 ->
        path_parts stack line = []
        /\ full_path stack line filename = path_join root_dir [filename]).
Proof.
  split.
  - intros before line.
    pose proof (initial_increasing os str_lower str_upper fs root_dir before)
      as Hinc.
    unfold path_parts. rewrite length_map.
    apply increasing_length.
    + now apply pop_deeper_increasing.
    + now apply pop_deeper_shallower.
  - intros stack line filename H0.
    assert (Hparts : path_parts stack line = [])
      by (unfold path_parts; rewrite H0, pop_deeper_zero; reflexivity).
    split; [exact Hparts|].
    unfold candidate, relative_path. rewrite Hparts. simpl.
    unfold os_path_join at 2. now rewrite join_single.
Qed.

(** X6.  The stack is a function of the lines read, whatever the file
    system, the flavour of [os.path] and the root.  Each of its entries
    is the indent and the name of a directory line read so far; no name
    has a star in it or a slash at its end. *)
Theorem stack_from_directory_lines :
  forall (lines : list str),
    dir_stack (run initial lines) = stack_after [] lines
    /\ forall e,
         In e (dir_stack (run initial lines)) ->
         pushed_by lines e
         /\ ~ In star (snd e)
         /\ forall r, snd e <> r ++ [slash].
Proof.
  intros lines. split; [apply run_stack|].
  intros e He. rewrite run_stack in He. simpl in He.
  apply stack_after_origin in He as [[]|Hp].
  split; [exact Hp|].
  destruct Hp as (l & _ & Hc & _). split.
  - now apply (@dirname_no_star l).
  - apply classify_dir in Hc as (g & _ & ->). intros r.
    apply rstrip_char_trimmed.
Qed.

Lemma found_line_length (line filename forward : str) :
  classify line = FileLine filename ->
  length (slice_to line (find line filename)
          ++ link filename forward
          ++ slice_from line
               (find line filename + Z.of_nat (length filename))%Z)
  = length line + 4 + length forward.
Proof.
  intros Hfile. apply classify_file in Hfile as [_ Hocc].
  apply file_match_occurs in Hocc.
  destruct (@splice_first line filename Hocc)
    as (prefix & suffix & Hline & Hp & Hs & _).
  rewrite Hp, Hs. rewrite Hline at 1. unfold link.
  rewrite !length_app. simpl. lia.
Qed.

Lemma body_stdout_cases (s : state) (line : str) :
  stdout (body s line) = stdout s
  \/ exists filename,
       classify line = FileLine filename
       /\ exists_ fs (full_path (dir_stack s) line filename) = false
       /\ stdout (body s line)
          = stdout s ++ [not_found (full_path (dir_stack s) line filename)].
Proof.
  destruct (classify line) as [d|f|] eqn:Hc.
  - left. now rewrite (@body_dir os str_lower str_upper fs root_dir s line d Hc).
  - destruct (exists_ fs (full_path (dir_stack s) line f)) eqn:Hex.
    + left. now rewrite (@body_file_found os str_lower str_upper fs root_dir
                           s line f Hc Hex).
    + right. exists f. repeat split; [exact Hex|].
      now rewrite (@body_file_missing os str_lower str_upper fs root_dir
                     s line f Hc Hex).
  - left. now rewrite (@body_other os str_lower str_upper fs root_dir s line Hc).
Qed.

(** The messages of a run: those there before, and one for each file
    line whose candidate is missing. *)
Lemma run_messages (lines : list str) :
  forall (s0 : state) (msg : str),
    In msg (stdout (run s0 lines)) <->
    In msg (stdout s0)
    \/ exists before line after filename,
         lines = before ++ line :: after
         /\ classify line = FileLine filename
         /\ exists_ fs (full_path (dir_stack (run s0 before)) line filename)
            = false
         /\ msg = not_found
                    (full_path (dir_stack (run s0 before)) line filename).
Proof.
  induction lines as [|l ls IH]; intros s0 msg.
  - simpl. split; [now left|].
    intros [H|(b & x & a & f & E & _)]; [exact H|].
    destruct b; discriminate.
  - change (run s0 (l :: ls)) with (run (body s0 l) ls). rewrite IH. split.
    + intros [H|(b & x & a & f & E & Hc & Hex & Hmsg)].
      * destruct (body_stdout_cases s0 l) as [Hs|(f & Hc & Hex & Hs)].
        -- left. now rewrite <- Hs.
        -- rewrite Hs in H. apply in_app_or in H as [H|[<-|[]]];
             [now left|].
           right. exists [], l, ls, f. now repeat split.
      * right. exists (l :: b), x, a, f. subst ls. now repeat split.
    + intros [H|(b & x & a & f & E & Hc & Hex & Hmsg)].
      * left. destruct (body_prints os str_lower str_upper fs root_dir s0 l)
          as (m & Hm).
        rewrite Hm. apply in_or_app. now left.
      * destruct b as [|b0 b].
        -- simpl in E. injection E as <- <-. left.
           simpl in Hex, Hmsg.
           rewrite (@body_file_missing os str_lower str_upper fs root_dir
                      s0 l f Hc Hex).
           simpl. apply in_or_app. right. left. now symmetry.
        -- simpl in E. injection E as <- ->. right.
           exists b, x, a, f. now repeat split.
Qed.

(** X7.  The lines a run changes are exactly the file lines whose
    candidate path exists, and each of them grows by the length of the
    relative path plus the four characters of the link. *)
Theorem changed_lines :
  forall (before after : list str) (line : str),
    let s := run initial before in
    let final := program (before ++ line :: after) in
    (nth_error (new_lines final) (length before) <> Some line <->
     exists filename,
       classify line = FileLine filename
       /\ exists_ fs (full_path (dir_stack s) line filename) = true)
    /\ (forall filename out,
          classify line = FileLine filename ->
          exists_ fs (full_path (dir_stack s) line filename) = true ->
          nth_error (new_lines final) (length before) = Some out ->
          length out
          = length line + 4 + length (rel_path (dir_stack s) line filename)).
Proof.
  intros before after line s final.
  destruct (run_line os str_lower str_upper fs root_dir initial
              before after line)
    as (out & rest & _ & Hout & Hrun & _ & _).
  fold s in Hout, Hrun.
  assert (Hnth : nth_error (new_lines final) (length before) = Some out).
  { unfold final, main. simpl new_lines. rewrite Hrun.
    unfold s.
    rewrite <- (run_initial_length os str_lower str_upper fs root_dir before).
    apply nth_error_middle. }
  assert (Hlen : forall filename,
             classify line = FileLine filename ->
             exists_ fs (full_path (dir_stack s) line filename) = true ->
             length out
             = length line + 4
               + length (rel_path (dir_stack s) line filename)).
  { intros filename Hc Hex.
    rewrite (@body_file_found os str_lower str_upper fs root_dir
               s line filename Hc Hex) in Hout.
    simpl new_lines in Hout. apply app_inv_head in Hout.
    injection Hout as Hout.
    assert (E : out = slice_to line (find line filename)
                      ++ link filename
                           (replace_char backslash slash
                              (rel_path (dir_stack s) line filename))
                      ++ slice_from line
                           (find line filename
                            + Z.of_nat (length filename))%Z)
      by (symmetry; exact Hout).
    rewrite E, (@found_line_length line filename _ Hc).
    now rewrite replace_char_length. }
  rewrite Hnth. split; [split|].
  - intros Hneq.
    destruct (body_cases os str_lower str_upper fs root_dir s line)
      as [Hkeep|(f & Hc & Hex & _)].
    + rewrite Hkeep in Hout. apply app_inv_head in Hout. congruence.
    + now exists f.
  - intros (f & Hc & Hex) E. specialize (Hlen f Hc Hex).
    assert (out = line) by congruence. subst out. lia.
  - intros filename out' Hc Hex E.
    assert (out' = out) by congruence. subst out'. now apply Hlen.
Qed.

(** X8.  What a run prints: the completion message, and a
    [File not found] message for each file line whose candidate path
    does not exist, with that path; nothing else. *)
Theorem messages_printed :
  forall (lines : list str) (msg : str),
    In msg (stdout (program lines)) <->
    msg = lit "Inventory processing complete."
    \/ exists before line after filename,
         lines = before ++ line :: after
         /\ classify line = FileLine filename
         /\ exists_ fs
              (full_path (dir_stack (run initial before)) line filename)
            = false
         /\ msg = lit "File not found: "
                  ++ full_path (dir_stack (run initial before)) line filename.
Proof.
  intros lines msg. unfold main. simpl stdout.
  rewrite in_app_iff, run_messages. unfold complete, not_found. split.
  - intros [[H|H]|H].
    + destruct H.
    + right. exact H.
    + left. destruct H as [H|[]]. symmetry. exact H.
  - intros [H|H].
    + right. left. symmetry. exact H.
    + left. right. exact H.
Qed.

End Further.

(** ** The further properties on sample inventories *)

Section FurtherRuns.

Local Abbreviation run_posix fs :=
  (run_from posix lower_ascii upper_ascii fs (lit "root") initial).
Local Abbreviation main_posix fs :=
  (main posix lower_ascii upper_ascii fs (lit "root")).

Lemma directory_line_shape_witness :
  ~ In star (lit "core")
  /\ forall r, lit "core" <> r ++ [slash].
Proof.
  destruct (directory_line_shape (ln "  - **core/** — domain") (lit "core"))
    as [_ H].
  apply H. vm_compute. reflexivity.
Defined.

Lemma file_line_shape_witness :
  classify (ln "  - User.java — model") = FileLine (lit "User.java").
Proof.
  apply (proj2 (file_line_shape (ln "  - User.java — model")
                  (lit "User.java"))).
  split; [vm_compute; reflexivity|].
  exists (lit " "), (lit " "), (lit " model").
  repeat split; try (vm_compute; reflexivity); discriminate.
Defined.


Lemma pop_keeps_shallower_witness :
  dir_stack
    (run_posix nothing
       ([ln "- **core/**"; ln "  - **models/**"] ++ [ln "  - **api/**"]))
  = filter (fun e => fst e <? indent_of (ln "  - **api/**"))
      (dir_stack (run_posix nothing [ln "- **core/**"; ln "  - **models/**"]))
    ++ [(indent_of (ln "  - **api/**"), lit "api")].
Proof.
  destruct (@pop_keeps_shallower posix lower_ascii upper_ascii nothing
              (lit "root") [ln "- **core/**"; ln "  - **models/**"]
              (ln "  - **api/**")) as (_ & _ & H).
  apply H. vm_compute. reflexivity.
Defined.

Lemma path_parts_bound_witness :
  path_parts [(4, lit "deep"); (0, lit "core")] (ln "- README.md — overview")
  = []
  /\ candidate posix lower_ascii upper_ascii (lit "root")
       [(4, lit "deep"); (0, lit "core")] (ln "- README.md — overview")
       (lit "README.md")
     = os_path_join posix lower_ascii upper_ascii (lit "root")
         [lit "README.md"].
Proof.
  destruct (@path_parts_bound posix lower_ascii upper_ascii nothing
              (lit "root")) as [_ H].
  apply H. vm_compute. reflexivity.
Defined.

Lemma stack_from_directory_lines_witness :
  pushed_by nested (2, lit "models")
  /\ ~ In star (lit "models")
  /\ forall r, lit "models" <> r ++ [slash].
Proof.
  destruct (@stack_from_directory_lines posix lower_ascii upper_ascii nothing
              (lit "root") nested) as [_ H].
  apply (H (2, lit "models")). vm_compute. right. left. reflexivity.
Defined.

Lemma changed_lines_witness :
  let fs := only (order_java posix) RegularFile in
  nth_error (new_lines (main_posix fs nested)) 2
  <> Some (ln "    - Order.java — entity").
Proof.
  intros fs.
  destruct (@changed_lines posix lower_ascii upper_ascii fs (lit "root")
              (firstn 2 nested) [] (ln "    - Order.java — entity"))
    as [[_ H] _].
  apply H. exists (lit "Order.java").
  split; vm_compute; reflexivity.
Defined.

Lemma messages_printed_witness :
  In (lit "File not found: root/core/ghost.txt")
    (stdout
       (main_posix nothing [ln "- **core/**"; ln "  - ghost.txt — not there"])).
Proof.
  apply (proj2 (@messages_printed posix lower_ascii upper_ascii nothing
                  (lit "root")
                  [ln "- **core/**"; ln "  - ghost.txt — not there"]
                  (lit "File not found: root/core/ghost.txt"))).
  right.
  exists [ln "- **core/**"], (ln "  - ghost.txt — not there"), [],
    (lit "ghost.txt").
  repeat split; vm_compute; reflexivity.
Defined.

End FurtherRuns.






(** ** More on [os.path.join] *)

Section JoinMore.
Variables str_lower str_upper : str -> str.

Lemma posix_step_chars (path b : str) (c : char) :
  In c (posix_step path b) -> In c path \/ In c b \/ c = slash.
Proof.
  unfold posix_step. destruct (startswith [slash] b); [now right; left|].
  destruct path as [|x path]; [simpl; now right; left|].
  destruct (endswith (x :: path) [slash]).
  - intros H. apply in_app_or in H as [H|H]; [now left|now right; left].
  - intros H. apply in_app_or in H as [H|H]; [now left|].
    apply in_app_or in H as [[<-|[]]|H]; [now right; right|now right; left].
Qed.

Lemma posixpath_join_chars (p : list str) :
  forall (a : str) (c : char),
    In c (posixpath_join a p) ->
    In c a \/ (exists b, In b p /\ In c b) \/ c = slash.
Proof.
  unfold posixpath_join. induction p as [|b p IH]; intros a c H;
    [now left|].
  simpl in H. apply IH in H as [H|[(b' & Hb' & Hc)|H]].
  - apply posix_step_chars in H as [H|[H|H]];
      [now left| |now right; right].
    right; left. exists b. split; [now left|exact H].
  - right; left. exists b'. split; [now right|exact Hc].
  - now right; right.
Qed.

Lemma splitdrive_chars (p : str) (c : char) :
  In c (fst (splitdrive str_upper p)) \/ In c (snd (splitdrive str_upper p)) ->
  In c p.
Proof.
  destruct (splitdrive_parts str_upper p) as [Hcat _].
  intros H. rewrite <- Hcat. apply in_or_app. exact H.
Qed.

Lemma nt_step_chars (drive path p : str) (c : char) :
  In c (fst (nt_step str_lower str_upper (drive, path) p))
  \/ In c (snd (nt_step str_lower str_upper (drive, path) p)) ->
  In c drive \/ In c path \/ In c p \/ c = backslash.
Proof.
  pose proof (splitdrive_chars p c) as Hsplit.
  unfold nt_step. destruct (splitdrive str_upper p) as [p_drive p_path].
  simpl in Hsplit.
  assert (Hd : In c p_drive -> In c p) by (intros H; apply Hsplit; now left).
  assert (Hp : In c p_path -> In c p) by (intros H; apply Hsplit; now right).
  destruct (match p_path with c0 :: _ => in_seps c0 | [] => false end).
  - destruct (nonempty p_drive || negb (nonempty drive)); simpl; tauto.
  - destruct (nonempty p_drive && negb (str_eqb p_drive drive)
              && negb (str_eqb (str_lower p_drive) (str_lower drive)));
      [simpl; tauto|].
    destruct (nonempty p_drive && negb (str_eqb p_drive drive));
      destruct (nonempty path && negb (in_seps (last path slash)));
      simpl; rewrite ?in_app_iff; simpl; intuition congruence.
Qed.

Lemma nt_fold_chars (paths : list str) :
  forall (drive path : str) (c : char),
    In c (fst (fold_left (nt_step str_lower str_upper) paths (drive, path)))
    \/ In c (snd (fold_left (nt_step str_lower str_upper) paths (drive, path)))
    ->
    In c drive \/ In c path \/ (exists p, In p paths /\ In c p)
    \/ c = backslash.
Proof.
  induction paths as [|p paths IH]; intros drive path c H.
  - simpl in H. tauto.
  - cbn [fold_left] in H.
    destruct (nt_step str_lower str_upper (drive, path) p) as [d' r'] eqn:E.
    apply IH in H as [H|[H|[(q & Hq & Hc)|H]]].
    + destruct (@nt_step_chars drive path p c) as [H1|[H1|[H1|H1]]];
        [rewrite E; now left|tauto|tauto| |tauto].
      right; right; left. exists p. split; [now left|exact H1].
    + destruct (@nt_step_chars drive path p c) as [H1|[H1|[H1|H1]]];
        [rewrite E; now right|tauto|tauto| |tauto].
      right; right; left. exists p. split; [now left|exact H1].
    + right; right; left. exists q. split; [now right|exact Hc].
    + tauto.
Qed.

Lemma ntpath_join_chars (path : str) (paths : list str) (c : char) :
  In c (ntpath_join str_lower str_upper path paths) ->
  In c path \/ (exists p, In p paths /\ In c p) \/ c = backslash.
Proof.
  unfold ntpath_join.
  pose proof (@nt_fold_chars paths (fst (splitdrive str_upper path))
                (snd (splitdrive str_upper path)) c) as Hfold.
  pose proof (splitdrive_chars path c) as Hsplit.
  destruct (splitdrive str_upper path) as [d0 r0]. simpl in Hfold, Hsplit.
  destruct (fold_left (nt_step str_lower str_upper) paths (d0, r0))
    as [drive rest].
  simpl in Hfold.
  assert (Hall : In c drive \/ In c rest ->
                 In c path \/ (exists p, In p paths /\ In c p)
                 \/ c = backslash).
  { intros H. apply Hfold in H as [H|[H|[H|H]]]; tauto. }
  match goal with |- context [if ?b then _ else _] => destruct b end;
    rewrite ?in_app_iff; simpl; intros H.
  - destruct H as [H|[[<-|[]]|H]]; tauto.
  - tauto.
Qed.

(** X11.  [os.path.join] makes its result from the characters of its
    arguments and the separator: in both flavours every character of
    the result is a character of one of the components or the
    separator of the flavour. *)
Theorem join_characters :
  forall (os : os_name) (a : str) (p : list str) (c : char),
    In c (join str_lower str_upper os a p) ->
    In c a \/ (exists b, In b p /\ In c b) \/ c = sep os.
Proof.
  intros [|] a p c H; simpl in *.
  - now apply posixpath_join_chars.
  - now apply ntpath_join_chars.
Qed.

End JoinMore.

(** ** Joining plain components *)

Section PlainJoin.
Variables str_lower str_upper : str -> str.

Lemma last_of_app (A : Type) (a b : list A) (d : A) :
  b <> [] -> last (a ++ b) d = last b d.
Proof.
  intros Hb. destruct (exists_last Hb) as (r & x & ->).
  now rewrite app_assoc, !last_last.
Qed.

Lemma last_in (A : Type) (l : list A) (d : A) : l <> [] -> In (last l d) l.
Proof.
  intros H. destruct (exists_last H) as (r & x & ->).
  rewrite last_last. apply in_or_app. right. now left.
Qed.

Lemma not_sep (p : str) (c : char) :
  plain p -> In c p -> in_seps c = false.
Proof.
  intros (_ & Hs & Hb & _) Hin. unfold in_seps.
  destruct (N.eqb_spec c backslash) as [->|_]; [contradiction|].
  destruct (N.eqb_spec c slash) as [->|_]; [contradiction|reflexivity].
Qed.

Lemma plain_open (p : str) :
  plain p -> p <> [] /\ in_seps (last p slash) = false.
Proof.
  intros H. pose proof H as (Hne & _). split; [exact Hne|].
  apply (@not_sep p); [exact H|now apply last_in].
Qed.

Lemma open_after (r p : str) (c : char) :
  plain p ->
  ((r ++ [c]) ++ p) <> [] /\ in_seps (last ((r ++ [c]) ++ p) slash) = false.
Proof.
  intros H. destruct (plain_open H) as [Hne Hlast]. split.
  - intros E. apply app_eq_nil in E as [_ E]. contradiction.
  - now rewrite last_of_app.
Qed.

Lemma startswith_one (a c : char) (s : str) :
  startswith [a] (c :: s) = N.eqb a c.
Proof. cbn [startswith]. apply andb_true_r. Qed.

Lemma endswith_one (a x : char) (r : str) :
  endswith (r ++ [x]) [a] = N.eqb a x.
Proof.
  unfold endswith. rewrite rev_app_distr. cbn [rev app].
  apply startswith_one.
Qed.

(** A plain component has no drive. *)
Lemma splitdrive_plain (p : str) :
  plain p -> splitdrive str_upper p = ([], p).
Proof.
  intros (Hne & Hs & Hb & Hc). unfold splitdrive.
  destruct (Nat.leb_spec 2 (length p)) as [Hlen|_]; [|reflexivity].
  rewrite replace_char_id by exact Hs.
  destruct p as [|a [|b p]]; try (simpl in Hlen; lia).
  change 2%Z with (Z.of_nat 2). rewrite slice_to_inside by exact Hlen.
  change 1%Z with (Z.of_nat 1).
  rewrite slice_from_inside by (simpl; lia).
  change (skipn 1 (a :: b :: p)) with (b :: p).
  rewrite slice_to_inside by (simpl; lia).
  assert (Ha : N.eqb a backslash = false)
    by (apply N.eqb_neq; intros ->; apply Hb; now left).
  assert (Hcb : N.eqb b colon = false)
    by (apply N.eqb_neq; intros ->; apply Hc; right; now left).
  unfold str_eqb. simpl. rewrite Ha, Hcb. reflexivity.
Qed.

Lemma nt_fold_plain (parts : list str) :
  forall r : str,
    r <> [] -> in_seps (last r slash) = false ->
    Forall plain parts ->
    fold_left (nt_step str_lower str_upper) parts ([], r)
    = ([], r ++ concat (map (fun p => backslash :: p) parts)).
Proof.
  induction parts as [|p parts IH]; intros r Hne Hlast Hall.
  - simpl. now rewrite app_nil_r.
  - inversion Hall as [|? ? Hp Hrest]; subst.
    cbn [fold_left].
    assert (Hstep : nt_step str_lower str_upper ([], r) p
                    = ([], (r ++ [backslash]) ++ p)).
    { unfold nt_step. rewrite (splitdrive_plain Hp).
      pose proof Hp as (Hpne & _).
      destruct p as [|c p]; [congruence|].
      rewrite (@not_sep (c :: p) c Hp) by now left.
      simpl nonempty. rewrite Hlast.
      destruct r; [congruence|]. reflexivity. }
    rewrite Hstep.
    destruct (@open_after r p backslash Hp) as [Hne' Hlast'].
    rewrite IH by assumption.
    simpl. rewrite <- !app_assoc. reflexivity.
Qed.

Lemma ntpath_join_plain (a : str) (parts : list str) :
  plain a -> Forall plain parts ->
  ntpath_join str_lower str_upper a parts = separated backslash a parts.
Proof.
  intros Ha Hall. unfold ntpath_join. rewrite (splitdrive_plain Ha).
  destruct (plain_open Ha) as [Hne Hlast].
  rewrite nt_fold_plain by assumption.
  destruct a as [|c a]; [congruence|]. simpl.
  rewrite andb_false_r. reflexivity.
Qed.

Lemma posix_fold_plain (parts : list str) :
  forall r : str,
    r <> [] -> in_seps (last r slash) = false ->
    Forall plain parts ->
    fold_left posix_step parts r
    = r ++ concat (map (fun p => slash :: p) parts).
Proof.
  induction parts as [|p parts IH]; intros r Hne Hlast Hall.
  - simpl. now rewrite app_nil_r.
  - inversion Hall as [|? ? Hp Hrest]; subst.
    cbn [fold_left].
    assert (Hstep : posix_step r p = (r ++ [slash]) ++ p).
    { unfold posix_step.
      pose proof Hp as (Hpne & Hs & _).
      destruct p as [|c p]; [congruence|].
      assert (Hc : N.eqb slash c = false)
        by (apply N.eqb_neq; intros <-; apply Hs; now left).
      rewrite startswith_one, Hc.
      destruct (exists_last Hne) as (r0 & x & ->).
      rewrite last_last in Hlast.
      assert (Hx : N.eqb slash x = false).
      { unfold in_seps in Hlast. apply orb_false_elim in Hlast as [_ Hx].
        now rewrite N.eqb_sym. }
      rewrite endswith_one, Hx.
      destruct (r0 ++ [x]) eqn:E; [destruct r0; discriminate|].
      rewrite <- app_assoc. reflexivity. }
    rewrite Hstep.
    destruct (@open_after r p slash Hp) as [Hne' Hlast'].
    rewrite IH by assumption.
    simpl. rewrite <- !app_assoc. reflexivity.
Qed.

Lemma posixpath_join_plain (a : str) (parts : list str) :
  plain a -> Forall plain parts ->
  posixpath_join a parts = separated slash a parts.
Proof.
  intros Ha Hall. destruct (plain_open Ha) as [Hne Hlast].
  unfold posixpath_join. now apply posix_fold_plain.
Qed.

Lemma separated_forward (a : str) (parts : list str) :
  plain a -> Forall plain parts ->
  replace_char backslash slash (separated backslash a parts)
  = separated slash a parts.
Proof.
  intros Ha Hall. unfold separated, replace_char. rewrite map_app.
  f_equal.
  - apply replace_char_id. now destruct Ha as (_ & _ & Hb & _).
  - induction Hall as [|p parts Hp _ IH]; [reflexivity|].
    simpl. rewrite map_app, IH. f_equal. f_equal.
    apply replace_char_id. now destruct Hp as (_ & _ & Hb & _).
Qed.

(** X12.  When the names on the stack and the token are plain (not
    empty, no slash, backslash or colon), the relative path is the
    names and the token with the separator of the flavour between them,
    and the path of the link is the same under both flavours: names
    and token with forward slashes between them. *)
Theorem plain_parts_joined :
  forall (os : os_name) (names : list str) (filename : str),
    Forall plain (names ++ [filename]) ->
    join_parts os str_lower str_upper names filename
    = joined (sep os) names filename
    /\ replace_char backslash slash
         (join_parts os str_lower str_upper names filename)
       = joined slash names filename.
Proof.
  intros os names filename Hall.
  assert (Hjoin : join_parts os str_lower str_upper names filename
                  = joined (sep os) names filename).
  { unfold join_parts, joined, os_path_join. destruct names as [|a p].
    - apply join_single.
    - simpl in Hall. inversion Hall as [|? ? Ha Hrest]; subst.
      destruct os; simpl.
      + now apply posixpath_join_plain.
      + now apply ntpath_join_plain. }
  split; [exact Hjoin|]. rewrite Hjoin.
  unfold joined. destruct names as [|a p].
  - simpl in Hall. inversion Hall as [|? ? Hf _]; subst.
    apply replace_char_id. now destruct Hf as (_ & _ & Hb & _).
  - simpl in Hall. inversion Hall as [|? ? Ha Hrest]; subst.
    destruct os; simpl.
    + apply replace_char_id. unfold separated. intros Hin.
      apply in_app_or in Hin as [Hin|Hin].
      * now destruct Ha as (_ & _ & Hb & _).
      * apply in_concat in Hin as (x & Hx & Hin).
        apply in_map_iff in Hx as (q & <- & Hq).
        rewrite Forall_forall in Hrest. specialize (Hrest q Hq).
        destruct Hin as [Hin|Hin]; [discriminate|].
        now destruct Hrest as (_ & _ & Hb & _).
    + now apply separated_forward.
Qed.

End PlainJoin.

Section JoinRuns.

Lemma join_characters_witness :
  In backslash (lit "core")
  \/ (exists b, In b [lit "models"; lit "Order.java"] /\ In backslash b)
  \/ backslash = sep nt.
Proof.
  apply (@join_characters lower_ascii upper_ascii nt (lit "core")
           [lit "models"; lit "Order.java"] backslash).
  vm_compute. do 4 right. left. reflexivity.
Defined.

Lemma plain_parts_joined_witness :
  join_parts nt lower_ascii upper_ascii [lit "core"; lit "models"]
    (lit "Order.java")
  = joined backslash [lit "core"; lit "models"] (lit "Order.java")
  /\ replace_char backslash slash
       (join_parts nt lower_ascii upper_ascii [lit "core"; lit "models"]
          (lit "Order.java"))
     = joined slash [lit "core"; lit "models"] (lit "Order.java").
Proof.
  apply (@plain_parts_joined lower_ascii upper_ascii nt
           [lit "core"; lit "models"] (lit "Order.java")).
  repeat constructor; try discriminate;
    vm_compute; intros H;
    repeat (destruct H as [H|H]; [discriminate|]); exact H.
Defined.

End JoinRuns.

(** ** A linked line *)

Section LinkedLine.
Variable os : os_name.
Variables str_lower str_upper : str -> str.
Variable fs : filesystem.
Variable root_dir : str.

Local Abbreviation body := (loop_body os str_lower str_upper fs root_dir).
Local Abbreviation full_path := (candidate os str_lower str_upper root_dir).
Local Abbreviation rel_path := (relative_path os str_lower str_upper).

Lemma app_same_length (A : Type) (a b x y : list A) :
  a ++ x = b ++ y -> length a = length b -> a = b /\ x = y.
Proof.
  revert b. induction a as [|c a IH]; intros [|d b] E Hlen;
    try discriminate.
  - now split.
  - simpl in E. injection E as -> E. simpl in Hlen.
    destruct (IH b E) as [-> ->]; [lia|now split].
Qed.

Lemma ends_dark_app (a b : str) :
  b <> [] -> ends_dark b -> ends_dark (a ++ b).
Proof.
  intros Hne Hb r c E.
  destruct (exists_last Hne) as (b0 & x & ->).
  rewrite app_assoc in E. apply app_inj_tail in E as [_ ->].
  now apply (Hb b0).
Qed.

Lemma ends_dark_tail (a b : str) :
  b <> [] -> ends_dark (a ++ b) -> ends_dark b.
Proof.
  intros Hne Hab r c E. apply (Hab (a ++ r) c).
  rewrite E. now rewrite app_assoc.
Qed.

(** White space before a dark character: the two are told apart. *)
Lemma space_run_unique (a b x y : str) (c d : char) :
  forallb isspace a = true -> forallb isspace b = true ->
  isspace c = false -> isspace d = false ->
  a ++ c :: x = b ++ d :: y -> a = b /\ c :: x = d :: y.
Proof.
  intros Ha Hb Hc Hd E.
  assert (La : span isspace (a ++ c :: x) = length a)
    by (apply span_run; assumption).
  assert (Lb : span isspace (b ++ d :: y) = length b)
    by (apply span_run; assumption).
  rewrite E, Lb in La.
  apply app_same_length in E; [exact E|now symmetry].
Qed.

(** The parts of a file line, and where the rewrite cuts it. *)
Lemma file_line_parts (line filename : str) :
  classify line = FileLine filename ->
  exists lead ws1 ws2 rest trail,
    line = lead ++ hyphen :: ws1 ++ filename ++ ws2 ++ emdash :: rest ++ trail
    /\ forallb isspace lead = true
    /\ ws1 <> [] /\ forallb isspace ws1 = true
    /\ filename <> []
    /\ forallb (fun c => negb (isspace c)) filename = true
    /\ ws2 <> [] /\ forallb isspace ws2 = true
    /\ forallb isspace trail = true
    /\ ends_dark (emdash :: rest)
    /\ (filename <> [hyphen] ->
        slice_to line (find line filename) = lead ++ hyphen :: ws1
        /\ slice_from line (find line filename + Z.of_nat (length filename))%Z
           = ws2 ++ emdash :: rest ++ trail).
Proof.
  intros Hfile. pose proof Hfile as Hshape.
  apply classify_file in Hshape as [_ Hshape]. unfold file_match in Hshape.
  apply file_re_shape in Hshape
    as (ws1 & ws2 & rest & Hs & Hne1 & Hsp1 & Hne & Hns & Hne2 & Hsp2).
  destruct (strip_split line) as (lead & trail & Hline & Hlead & Htrail).
  assert (Hparts : line = lead ++ hyphen :: ws1 ++ filename ++ ws2
                               ++ emdash :: rest ++ trail).
  { rewrite Hline at 1. rewrite Hs. simpl.
    repeat (rewrite <- app_assoc; simpl). reflexivity. }
  assert (Hend : ends_dark (emdash :: rest)).
  { apply (@ends_dark_tail (hyphen :: ws1 ++ filename ++ ws2));
      [discriminate|].
    replace ((hyphen :: ws1 ++ filename ++ ws2) ++ emdash :: rest)
      with (strip line)
      by (rewrite Hs; simpl; repeat (rewrite <- app_assoc; simpl);
          reflexivity).
    apply strip_ends_dark. }
  exists lead, ws1, ws2, rest, trail.
  split; [exact Hparts|]. repeat split; try assumption.
  - (* the prefix *)
    destruct (@token_position line filename Hfile)
      as (lead' & ws' & after' & Hline' & Hlead' & Hws' & _ & Hcut).
    rewrite (Hcut H).
    destruct filename as [|c0 fn]; [congruence|].
    simpl in Hns. apply andb_prop in Hns as [Hc0 _].
    apply negb_true_iff in Hc0.
    rewrite Hparts in Hline' at 1. rewrite <- app_assoc in Hline'.
    simpl in Hline'. symmetry in Hline'.
    apply space_run_unique in Hline' as [-> Hrest];
      [|assumption|assumption|reflexivity|reflexivity].
    injection Hrest as Hrest. simpl in Hrest.
    apply space_run_unique in Hrest as [-> _]; try assumption.
    reflexivity.
  - (* the suffix *)
    destruct (@token_position line filename Hfile)
      as (lead' & ws' & after' & Hline' & Hlead' & Hws' & _ & Hcut).
    assert (Hocc : exists before after, line = before ++ filename ++ after)
      by (exists (lead' ++ hyphen :: ws'), after'; exact Hline').
    destruct (@splice_first line filename Hocc)
      as (prefix & suffix & Hcutline & Hp & Hsfx & _).
    rewrite Hsfx.
    assert (Hprefix : prefix = lead' ++ hyphen :: ws')
      by (rewrite <- Hp; apply Hcut; exact H).
    rewrite Hprefix in Hcutline.
    assert (Hsame : suffix = after').
    { rewrite Hline' in Hcutline at 1.
      apply app_inv_head in Hcutline. apply app_inv_head in Hcutline.
      now symmetry. }
    subst suffix.
    destruct filename as [|c0 fn]; [congruence|].
    simpl in Hns. apply andb_prop in Hns as [Hc0 _].
    apply negb_true_iff in Hc0.
    rewrite Hparts in Hline' at 1. rewrite <- app_assoc in Hline'.
    simpl in Hline'. symmetry in Hline'.
    apply space_run_unique in Hline' as [-> Hrest];
      [|assumption|assumption|reflexivity|reflexivity].
    injection Hrest as Hrest. simpl in Hrest.
    apply space_run_unique in Hrest as [-> Hrest]; try assumption.
    injection Hrest as Hrest. try apply app_inv_head in Hrest. congruence.
Qed.

(** X13.  A rewritten line is a file line again.  When the token is
    not a lone hyphen and the path of the link holds no white space,
    the new line has the indent of the old one, the directory pattern
    does not match it, and the file pattern matches it with the whole
    link as its token: run on its own output, the script looks the
    link up as a file name. *)
Theorem linked_line_again :
  forall (s : state) (line filename : str),
    let forward :=
      replace_char backslash slash (rel_path (dir_stack s) line filename) in
    classify line = FileLine filename ->
    filename <> [hyphen] ->
    exists_ fs (full_path (dir_stack s) line filename) = true ->
    forallb (fun c => negb (isspace c)) forward = true ->
    exists out,
      new_lines (body s line) = new_lines s ++ [out]
      /\ classify out
         = FileLine (lit "[" ++ filename ++ lit "](" ++ forward ++ lit ")")
      /\ indent_of out = indent_of line.
Proof.
  intros s line filename forward Hfile Hnot Hex Hfwd.
  destruct (@file_line_parts line filename Hfile)
    as (lead & ws1 & ws2 & rest & trail & Hline & Hlead & Hne1 & Hsp1
        & Hne & Hns & Hne2 & Hsp2 & Htrail & Hend & Hcut).
  destruct (Hcut Hnot) as [Hp Hsfx].
  set (token := lit "[" ++ filename ++ lit "](" ++ forward ++ lit ")").
  set (core := hyphen :: ws1 ++ token ++ ws2 ++ emdash :: rest).
  exists (lead ++ core ++ trail).
  assert (Hout : new_lines (body s line)
                 = new_lines s ++ [lead ++ core ++ trail]).
  { rewrite (@body_file_found os str_lower str_upper fs root_dir
               s line filename Hfile Hex).
    simpl new_lines. rewrite Hp, Hsfx. do 2 f_equal.
    unfold core, token, link. fold forward.
    simpl. repeat (rewrite <- app_assoc; simpl). reflexivity. }
  assert (Hdark : forallb (fun c => negb (isspace c)) token = true).
  { unfold token. rewrite !forallb_app, Hns, Hfwd. reflexivity. }
  assert (Hstrip : strip (lead ++ core ++ trail) = core).
  { apply strip_around; try assumption.
    - reflexivity.
    - unfold core.
      replace (hyphen :: ws1 ++ token ++ ws2 ++ emdash :: rest)
        with ((hyphen :: ws1 ++ token ++ ws2) ++ emdash :: rest)
        by (simpl; repeat (rewrite <- app_assoc; simpl); reflexivity).
      apply ends_dark_app; [discriminate|exact Hend]. }
  split; [exact Hout|]. split.
  - unfold classify, dir_match, file_match. rewrite Hstrip.
    destruct (match_group1 dir_re core) as [g|] eqn:Hdir.
    + exfalso. apply dir_re_shape in Hdir
        as (ws & tail & Hcore & _ & Hws & _).
      unfold core in Hcore. injection Hcore as Hcore.
      unfold token in Hcore. simpl in Hcore.
      apply space_run_unique in Hcore as [_ Hcore];
        [discriminate|assumption|assumption|reflexivity|reflexivity].
    + unfold core. rewrite file_re_complete; try assumption.
      * reflexivity.
      * unfold token. discriminate.
  - unfold core. rewrite Hline.
    rewrite !indent_of_lead; [reflexivity| | | |]; try assumption;
      reflexivity.
Qed.

End LinkedLine.

Section LinkedRuns.

Lemma linked_line_again_witness :
  let fs := only (order_java posix) RegularFile in
  let s :=
    run_from posix lower_ascii upper_ascii fs (lit "root") initial
      [ln "- **core/**"; ln "  - **models/**"] in
  let line := ln "    - Order.java — entity" in
  exists out,
    new_lines (loop_body posix lower_ascii upper_ascii fs (lit "root") s line)
    = new_lines s ++ [out]
    /\ classify out = FileLine (lit "[Order.java](core/models/Order.java)")
    /\ indent_of out = 4.
Proof.
  intros fs s line.
  apply (@linked_line_again posix lower_ascii upper_ascii fs (lit "root")
           s line (lit "Order.java")).
  - vm_compute. reflexivity.
  - discriminate.
  - vm_compute. reflexivity.
  - vm_compute. reflexivity.
Defined.

End LinkedRuns.




(** ** Reading and writing the inventory *)

Section FileFacts.

Lemma terminated_cons (c : char) (line : str) :
  c <> newline -> terminated line -> terminated (c :: line).
Proof.
  intros Hc (body & -> & Hbody). exists (c :: body). split; [reflexivity|].
  intros [H|H]; [congruence|contradiction].
Qed.

Lemma unterminated_cons (c : char) (line : str) :
  c <> newline -> ~ In newline line -> unterminated (c :: line).
Proof.
  intros Hc Hline. split; [discriminate|].
  intros [H|H]; [congruence|contradiction].
Qed.

Lemma split_concat (text : str) : concat (split_lines text) = text.
Proof.
  induction text as [|c rest IH]; [reflexivity|].
  simpl. destruct (N.eqb c newline).
  - simpl. now rewrite IH.
  - destruct (split_lines rest) as [|line lines].
    + simpl in *. now rewrite <- IH.
    + simpl in *. now rewrite IH.
Qed.

Lemma split_file_lines (text : str) : file_lines (split_lines text).
Proof.
  induction text as [|c rest IH]; [exact I|].
  simpl. destruct (N.eqb_spec c newline) as [->|Hc].
  - assert (Hnl : terminated [newline])
      by (exists []; split; [reflexivity|intros []]).
    simpl. destruct (split_lines rest); [now left|now split].
  - destruct (split_lines rest) as [|line lines].
    + simpl. right. apply unterminated_cons; [exact Hc|intros []].
    + simpl in *. destruct lines as [|l2 lines].
      * destruct IH as [Ht|[_ Hu]].
        -- left. now apply terminated_cons.
        -- right. now apply unterminated_cons.
      * destruct IH as [Ht Hrest].
        split; [now apply terminated_cons|exact Hrest].
Qed.

Lemma split_terminated (body text : str) :
  ~ In newline body ->
  split_lines ((body ++ [newline]) ++ text)
  = (body ++ [newline]) :: split_lines text.
Proof.
  intros Hbody. induction body as [|c body IH]; [reflexivity|].
  simpl. destruct (N.eqb_spec c newline) as [->|_].
  - exfalso. apply Hbody. now left.
  - simpl in IH. rewrite IH; [reflexivity|].
    intros H. apply Hbody. now right.
Qed.

Lemma split_unterminated (line : str) :
  unterminated line -> split_lines line = [line].
Proof.
  intros [Hne Hnl]. induction line as [|c line IH]; [congruence|].
  simpl. destruct (N.eqb_spec c newline) as [->|_].
  - exfalso. apply Hnl. now left.
  - destruct line as [|c2 line]; [reflexivity|].
    rewrite IH; [reflexivity|discriminate|].
    intros H. apply Hnl. now right.
Qed.

Lemma split_of_lines (lines : list str) :
  file_lines lines -> split_lines (concat lines) = lines.
Proof.
  induction lines as [|line rest IH]; [reflexivity|].
  intros H. simpl in H. destruct rest as [|l2 rest].
  - simpl. rewrite app_nil_r. destruct H as [(body & -> & Hbody)|Hu].
    + rewrite <- (app_nil_r (body ++ [newline])) at 1.
      now rewrite split_terminated.
    + now apply split_unterminated.
  - destruct H as [(body & -> & Hbody) Hrest].
    change (concat ((body ++ [newline]) :: l2 :: rest))
      with ((body ++ [newline]) ++ concat (l2 :: rest)).
    rewrite split_terminated by exact Hbody.
    now rewrite IH.
Qed.

(** Universal newlines leave no carriage return. *)
Lemma universal_no_return_upto (n : nat) :
  forall raw : str,
    length raw <= n -> ~ In carriage_return (universal raw).
Proof.
  induction n as [|n IH]; intros raw Hlen.
  - destruct raw; [intros []|simpl in Hlen; lia].
  - destruct raw as [|c rest]; [intros []|].
    simpl in Hlen. simpl.
    destruct (N.eqb_spec c carriage_return) as [->|Hc].
    + intros [H|H]; [discriminate|].
      destruct rest as [|d rest']; [destruct H|].
      simpl in Hlen.
      destruct (N.eqb d newline).
      * revert H. apply IH. lia.
      * revert H. apply IH. simpl. lia.
    + intros [H|H]; [congruence|].
      revert H. apply IH. lia.
Qed.

Lemma universal_no_return (raw : str) : ~ In carriage_return (universal raw).
Proof. apply (@universal_no_return_upto (length raw)). apply Nat.le_refl. Qed.

Lemma universal_other (c : char) (rest : str) :
  c <> carriage_return -> universal (c :: rest) = c :: universal rest.
Proof.
  intros Hc. cbn [universal].
  destruct (N.eqb_spec c carriage_return) as [|_]; [contradiction|reflexivity].
Qed.

Lemma universal_return_newline (rest : str) :
  universal (carriage_return :: newline :: rest) = newline :: universal rest.
Proof. reflexivity. Qed.

Lemma to_linesep_cons (os : os_name) (c : char) (text : str) :
  to_linesep os (c :: text)
  = (if N.eqb c newline then linesep os else [c]) ++ to_linesep os text.
Proof. reflexivity. Qed.

(** A text without carriage returns, written with the line ends of the
    host, is read as it was. *)
Lemma universal_to_linesep (os : os_name) (text : str) :
  ~ In carriage_return text -> universal (to_linesep os text) = text.
Proof.
  induction text as [|c text IH]; intros Hno; [reflexivity|].
  assert (Hc : c <> carriage_return) by (intros ->; apply Hno; now left).
  assert (Hrest : ~ In carriage_return text)
    by (intros H; apply Hno; now right).
  specialize (IH Hrest). rewrite to_linesep_cons.
  destruct (N.eqb_spec c newline) as [->|Hnl].
  - destruct os; cbn [linesep app].
    + rewrite universal_other by discriminate. now rewrite IH.
    + rewrite universal_return_newline. now rewrite IH.
  - cbn [app]. rewrite universal_other by exact Hc. now rewrite IH.
Qed.

Lemma in_line_in_concat (lines : list str) (c : char) :
  In c (concat lines) <-> exists line, In line lines /\ In c line.
Proof.
  rewrite in_concat. split; intros (l & H1 & H2); exists l; now split.
Qed.

Lemma no_returns_concat (lines : list str) :
  no_returns lines <-> ~ In carriage_return (concat lines).
Proof.
  unfold no_returns. rewrite Forall_forall, in_line_in_concat. split.
  - intros H (l & Hl & Hc). now apply (H l).
  - intros H l Hl Hc. apply H. now exists l.
Qed.

Lemma readlines_spec (raw : str) :
  file_lines (readlines raw)
  /\ no_returns (readlines raw)
  /\ concat (readlines raw) = universal raw.
Proof.
  unfold readlines. split; [apply split_file_lines|]. split.
  - apply no_returns_concat. rewrite split_concat.
    apply universal_no_return.
  - apply split_concat.
Qed.

Lemma readlines_writelines (os : os_name) (lines : list str) :
  file_lines lines -> no_returns lines ->
  readlines (writelines os lines) = lines.
Proof.
  intros Hfl Hno. unfold readlines, writelines.
  rewrite universal_to_linesep by now apply no_returns_concat.
  now apply split_of_lines.
Qed.

(** X9.  Reading and writing through the text layer.  The lines read
    have no carriage return, end in their only newline (the last one
    possibly without), and together are the content of the file with
    its line ends turned into newlines.  Lines of that kind, written
    and read again, are the same lines, whatever the line separator of
    the host; and a file whose line ends are those of the host is
    written back as it is when its lines are. *)
Theorem read_write_round_trip :
  forall os : os_name,
    (forall raw : str,
       file_lines (readlines raw)
       /\ no_returns (readlines raw)
       /\ concat (readlines raw) = universal raw)
    /\ (forall lines : list str,
          file_lines lines -> no_returns lines ->
          readlines (writelines os lines) = lines)
    /\ (forall text : str,
          ~ In carriage_return text ->
          writelines os (readlines (to_linesep os text))
          = to_linesep os text).
Proof.
  intros os. split; [apply readlines_spec|]. split.
  - apply readlines_writelines.
  - intros text Hno. unfold writelines, readlines.
    rewrite universal_to_linesep by exact Hno.
    now rewrite split_concat.
Qed.

End FileFacts.

(** ** The lines written *)

Section LinesWritten.
Variable os : os_name.
Variables str_lower str_upper : str -> str.
Variable fs : filesystem.
Variable root_dir : str.

Local Abbreviation body := (loop_body os str_lower str_upper fs root_dir).
Local Abbreviation run := (run_from os str_lower str_upper fs root_dir).
Local Abbreviation program := (main os str_lower str_upper fs root_dir).
Local Abbreviation full_path := (candidate os str_lower str_upper root_dir).
Local Abbreviation rel_path := (relative_path os str_lower str_upper).

Lemma newline_is_space : isspace newline = true.
Proof. reflexivity. Qed.

Lemma return_is_space : isspace carriage_return = true.
Proof. reflexivity. Qed.

Lemma dark_without (c : char) (s : str) :
  isspace c = true ->
  forallb (fun x => negb (isspace x)) s = true -> ~ In c s.
Proof.
  intros Hc H Hin. rewrite forallb_forall in H. specialize (H c Hin).
  now rewrite Hc in H.
Qed.

Lemma strip_sub (line : str) (c : char) : In c (strip line) -> In c line.
Proof.
  intros H. destruct (strip_split line) as (lead & trail & Hsplit & _).
  rewrite Hsplit. apply in_or_app. right. apply in_or_app. now left.
Qed.

(** The stripped text of a line of the file has no newline. *)
Lemma strip_no_newline (line : str) :
  terminated line \/ unterminated line -> ~ In newline (strip line).
Proof.
  intros Hline Hin.
  destruct Hline as [(body0 & Hbody & Hno)|[_ Hno]];
    [|apply Hno; now apply strip_sub].
  destruct (strip_split line) as (lead & trail & Hsplit & _ & _).
  apply in_split in Hin as (a & b & Hab).
  destruct (list_eq_dec N.eq_dec (b ++ trail) []) as [Hnil|Hne].
  - apply app_eq_nil in Hnil as [-> _].
    pose proof (strip_ends_dark line a newline Hab) as Hdark.
    now rewrite newline_is_space in Hdark.
  - destruct (exists_last Hne) as (t & x & Ht).
    rewrite Hab in Hsplit. rewrite Hbody in Hsplit.
    assert (E : body0 ++ [newline] = (lead ++ a ++ newline :: t) ++ [x]).
    { rewrite Hsplit. repeat (rewrite <- app_assoc; simpl).
      now rewrite Ht. }
    apply app_inj_tail in E as [E _]. apply Hno. rewrite E.
    apply in_or_app. right. apply in_or_app. right. now left.
Qed.

(** The name of a directory line is part of its stripped text. *)
Lemma dirname_in_strip (line dirname : str) (c : char) :
  classify line = DirLine dirname -> In c dirname -> In c (strip line).
Proof.
  intros Hc Hin.
  apply classify_dir in Hc as (g & Hg & ->). unfold dir_match in Hg.
  apply dir_re_shape in Hg as (ws & rest & -> & _).
  destruct (rstrip_char_prefix slash g) as (t & Ht).
  right. apply in_or_app. right. right. right.
  apply in_or_app. left. rewrite Ht. apply in_or_app. now left.
Qed.

Lemma pop_deeper_without (c : char) (indent : nat) (stack : list entry) :
  without c stack -> without c (pop_deeper indent stack).
Proof.
  intros H. destruct (pop_deeper_spec indent stack) as (popped & Heq & _).
  unfold without in *. rewrite Heq in H. now apply Forall_app in H.
Qed.

(** A line puts on the stack no character that it does not have in
    its stripped text. *)
Lemma stack_step_without (c : char) (stack : list entry) (line : str) :
  ~ In c (strip line) ->
  without c stack -> without c (stack_step stack line).
Proof.
  intros Hline H. unfold stack_step.
  destruct (classify line) as [d|f|] eqn:Hc.
  - apply Forall_app. split; [now apply pop_deeper_without|].
    constructor; [|constructor]. simpl. intros Hin. apply Hline.
    now apply (@dirname_in_strip line d).
  - now apply pop_deeper_without.
  - exact H.
Qed.

Lemma join_parts_without (c : char) (names : list str) (filename : str) :
  c <> slash -> c <> backslash ->
  Forall (fun n => ~ In c n) names -> ~ In c filename ->
  ~ In c (join_parts os str_lower str_upper names filename).
Proof.
  intros Hs Hb Hnames Hfile Hin.
  assert (Hchars : forall a p,
             In c (join str_lower str_upper os a p) ->
             In c a \/ exists b, In b p /\ In c b).
  { intros a p H. destruct os; simpl in H.
    - apply posixpath_join_chars in H as [H|[H|H]];
        [now left|now right|contradiction].
    - apply ntpath_join_chars in H as [H|[H|H]];
        [now left|now right|contradiction]. }
  unfold join_parts, os_path_join in Hin.
  destruct names as [|a p].
  - apply Hchars in Hin as [H|(b & [] & _)]. contradiction.
  - inversion Hnames as [|? ? Ha Hp]; subst.
    apply Hchars in Hin as [H|(b & Hb' & H)]; [contradiction|].
    apply in_app_or in Hb' as [Hb'|[<-|[]]]; [|contradiction].
    rewrite Forall_forall in Hp. now apply (Hp b).
Qed.

(** A white-space character that no name on the stack has is not in
    the link either. *)
Lemma link_without (c : char) (s : state) (line filename : str) :
  isspace c = true ->
  without c (dir_stack s) ->
  classify line = FileLine filename ->
  ~ In c (link filename
            (replace_char backslash slash
               (rel_path (dir_stack s) line filename))).
Proof.
  intros Hc Hstack Hfile.
  pose proof Hfile as Hshape. apply classify_file in Hshape as [_ Hshape].
  unfold file_match in Hshape.
  apply file_re_shape in Hshape as (_ & _ & _ & _ & _ & _ & _ & Hdark & _).
  assert (Hf : ~ In c filename) by now apply dark_without.
  assert (Hne : forall d, isspace d = false -> c <> d)
    by (intros d Hd ->; congruence).
  assert (Hfwd : ~ In c (replace_char backslash slash
                           (rel_path (dir_stack s) line filename))).
  { unfold replace_char. intros Hin.
    apply in_map_iff in Hin as (x & Hx & Hin).
    destruct (N.eqb_spec x backslash) as [_|_].
    - symmetry in Hx. now apply (Hne slash).
    - subst x. revert Hin. unfold relative_path, path_parts.
      apply join_parts_without;
        [now apply Hne|now apply Hne| |exact Hf].
      apply Forall_forall. intros n Hn.
      apply in_map_iff in Hn as (e & <- & He).
      apply pop_deeper_sub in He.
      unfold without in Hstack. rewrite Forall_forall in Hstack.
      now apply Hstack. }
  unfold link. intros Hin.
  assert (Hlit : forall d, isspace d = false -> d = c -> False)
    by (intros d Hd E; now apply (Hne d Hd)).
  apply in_app_or in Hin as [[E|[]]|Hin];
    [refine (Hlit _ _ E); reflexivity|].
  apply in_app_or in Hin as [Hin|Hin]; [contradiction|].
  apply in_app_or in Hin as [[E|[E|[]]]|Hin];
    try (refine (Hlit _ _ E); reflexivity).
  apply in_app_or in Hin as [Hin|[E|[]]]; [contradiction|].
  refine (Hlit _ _ E); reflexivity.
Qed.

(** A round keeps the line end of its line, puts no newline inside
    it and no carriage return into it. *)
Lemma body_line_kept (s : state) (line : str) :
  without newline (dir_stack s) ->
  without carriage_return (dir_stack s) ->
  exists out,
    new_lines (body s line) = new_lines s ++ [out]
    /\ (terminated line -> terminated out)
    /\ (unterminated line -> unterminated out)
    /\ (~ In carriage_return line -> ~ In carriage_return out).
Proof.
  intros Hnl Hcr.
  destruct (body_cases os str_lower str_upper fs root_dir s line)
    as [Hkeep|(f & Hc & _ & Hlink)].
  - exists line. split; [exact Hkeep|].
    split; [|split]; intros Hx; exact Hx.
  - pose proof Hc as Hocc. apply classify_file in Hocc as [_ Hocc].
    pose proof Hocc as Hshape. unfold file_match in Hshape.
    apply file_re_shape in Hshape
      as (_ & _ & _ & _ & _ & _ & Hfne & Hdark & _).
    apply file_match_occurs in Hocc.
    destruct (@splice_first line f Hocc)
      as (prefix & suffix & Hline & Hp & Hs & _).
    rewrite Hp, Hs in Hlink.
    set (forward := replace_char backslash slash
                      (rel_path (dir_stack s) line f)) in *.
    assert (Hf : ~ In newline f)
      by (apply dark_without; [reflexivity|exact Hdark]).
    pose proof (@link_without newline s line f newline_is_space Hnl Hc)
      as Hlk. fold forward in Hlk.
    pose proof (@link_without carriage_return s line f return_is_space
                  Hcr Hc) as Hlkr. fold forward in Hlkr.
    exists (prefix ++ link f forward ++ suffix).
    split; [exact Hlink|]. split; [|split].
    + intros (body0 & Hbody & Hno).
      destruct (list_eq_dec N.eq_dec suffix []) as [->|Hne].
      * exfalso. rewrite app_nil_r in Hline.
        destruct (exists_last Hfne) as (f0 & x & Hfx).
        rewrite Hline, Hfx, app_assoc in Hbody.
        apply app_inj_tail in Hbody as [_ Hx].
        apply Hf. rewrite Hfx. apply in_or_app. right. left. exact Hx.
      * destruct (exists_last Hne) as (s0 & x & ->).
        rewrite Hline in Hbody. rewrite !app_assoc in Hbody.
        apply app_inj_tail in Hbody as [Hbody ->].
        exists (prefix ++ link f forward ++ s0).
        split; [now rewrite <- !app_assoc|].
        intros Hin. apply in_app_or in Hin as [Hin|Hin].
        -- apply Hno. rewrite <- Hbody. apply in_or_app. left.
           apply in_or_app. now left.
        -- apply in_app_or in Hin as [Hin|Hin]; [contradiction|].
           apply Hno. rewrite <- Hbody. apply in_or_app. now right.
    + intros [_ Hno]. split.
      * unfold link. destruct prefix; discriminate.
      * intros Hin. apply in_app_or in Hin as [Hin|Hin].
        -- apply Hno. rewrite Hline. apply in_or_app. now left.
        -- apply in_app_or in Hin as [Hin|Hin]; [contradiction|].
           apply Hno. rewrite Hline. apply in_or_app. right.
           apply in_or_app. now right.
    + intros Hno Hin. apply in_app_or in Hin as [Hin|Hin].
      * apply Hno. rewrite Hline. apply in_or_app. now left.
      * apply in_app_or in Hin as [Hin|Hin]; [contradiction|].
        apply Hno. rewrite Hline. apply in_or_app. right.
        apply in_or_app. now right.
Qed.

Lemma file_lines_head (line : str) (rest : list str) :
  file_lines (line :: rest) ->
  (terminated line \/ unterminated line) /\ file_lines rest
  /\ (rest <> [] -> terminated line).
Proof.
  simpl. destruct rest as [|l2 rest].
  - intros H. repeat split; [exact H|congruence].
  - intros [Ht Hrest]. repeat split; [now left|exact Hrest|now intros _].
Qed.

Lemma run_file_lines (lines : list str) :
  forall s0 : state,
    without newline (dir_stack s0) ->
    without carriage_return (dir_stack s0) ->
    file_lines lines -> no_returns lines ->
    exists outs,
      new_lines (run s0 lines) = new_lines s0 ++ outs
      /\ length outs = length lines
      /\ file_lines outs
      /\ no_returns outs.
Proof.
  induction lines as [|l ls IH]; intros s0 Hnl Hcr Hlines Hno.
  - exists []. simpl. repeat split; [now rewrite app_nil_r|constructor].
  - change (run s0 (l :: ls)) with (run (body s0 l) ls).
    apply file_lines_head in Hlines as (Hl & Hls & Hterm).
    inversion Hno as [|? ? Hnol Hnols]; subst.
    destruct (@body_line_kept s0 l Hnl Hcr) as (out & Hout & Ht & Hu & Hr).
    destruct (IH (body s0 l)) as (outs & Hn & Hlen & Hfl & Hnos).
    { rewrite body_stack. apply stack_step_without; [|exact Hnl].
      now apply strip_no_newline. }
    { rewrite body_stack. apply stack_step_without; [|exact Hcr].
      intros H. apply Hnol. now apply strip_sub. }
    { exact Hls. }
    { exact Hnols. }
    exists (out :: outs). repeat split.
    + rewrite Hn, Hout, <- app_assoc. reflexivity.
    + simpl. now rewrite Hlen.
    + simpl. destruct outs as [|o2 outs].
      * destruct Hl as [Hl|Hl]; [left; now apply Ht|right; now apply Hu].
      * split; [|exact Hfl]. apply Ht. apply Hterm.
        destruct ls; [discriminate|discriminate].
    + constructor; [now apply Hr|exact Hnos].
Qed.

(** When no file line finds its candidate the lines come out as they
    went in. *)
Lemma run_unchanged (lines : list str) :
  forall s0 : state,
    (forall before line after filename,
       lines = before ++ line :: after ->
       classify line = FileLine filename ->
       exists_ fs (full_path (dir_stack (run s0 before)) line filename)
       = false) ->
    new_lines (run s0 lines) = new_lines s0 ++ lines.
Proof.
  induction lines as [|l ls IH]; intros s0 Hnone.
  - simpl. now rewrite app_nil_r.
  - change (run s0 (l :: ls)) with (run (body s0 l) ls).
    rewrite IH.
    + destruct (body_cases os str_lower str_upper fs root_dir s0 l)
        as [Hkeep|(f & Hc & Hex & _)].
      * rewrite Hkeep, <- app_assoc. reflexivity.
      * specialize (Hnone [] l ls f eq_refl Hc). simpl in Hnone. congruence.
    + intros before line after f E Hc.
      apply (Hnone (l :: before) line after f); [now rewrite E|exact Hc].
Qed.

(** No round makes its line shorter. *)
Lemma body_grows (s : state) (line : str) :
  exists out,
    new_lines (body s line) = new_lines s ++ [out]
    /\ length line <= length out.
Proof.
  destruct (body_cases os str_lower str_upper fs root_dir s line)
    as [Hkeep|(f & Hc & _ & Hlink)].
  - exists line. split; [exact Hkeep|lia].
  - eexists. split; [exact Hlink|].
    rewrite (@found_line_length line f _ Hc). lia.
Qed.

Lemma run_grows (lines : list str) :
  forall s0 : state,
    exists outs,
      new_lines (run s0 lines) = new_lines s0 ++ outs
      /\ length (concat lines) <= length (concat outs).
Proof.
  induction lines as [|l ls IH]; intros s0.
  - exists []. simpl. split; [now rewrite app_nil_r|lia].
  - change (run s0 (l :: ls)) with (run (body s0 l) ls).
    destruct (IH (body s0 l)) as (outs & Hn & Hlen).
    destruct (body_grows s0 l) as (out & Hout & Hle).
    exists (out :: outs). split.
    + rewrite Hn, Hout, <- app_assoc. reflexivity.
    + simpl. rewrite !length_app. lia.
Qed.

(** The lines written for a file: of the kind that is read back. *)
Lemma program_lines_kept (lines : list str) :
  file_lines lines -> no_returns lines ->
  file_lines (new_lines (program lines))
  /\ no_returns (new_lines (program lines)).
Proof.
  intros Hfl Hno.
  destruct (@run_file_lines lines initial) as (outs & Hn & _ & Hfl' & Hno');
    [constructor|constructor|exact Hfl|exact Hno|].
  unfold main. simpl new_lines. rewrite Hn. simpl. now split.
Qed.

(** X14.  What the script writes is read back line for line.  For lines
    as they are read from a file (no carriage return, each ending in
    its only newline, the last possibly without one) the lines written
    are again of that kind: a rewrite keeps the line end of its line
    and puts no newline or carriage return into it.  So whatever the
    line separator of the host, reading the file after the run gives
    [new_lines] again. *)
Theorem written_lines_read_back :
  (forall lines : list str,
     file_lines lines -> no_returns lines ->
     file_lines (new_lines (program lines))
     /\ no_returns (new_lines (program lines))
     /\ readlines (writelines os (new_lines (program lines)))
        = new_lines (program lines))
  /\ (forall raw : str,
        readlines (rewritten os str_lower str_upper fs root_dir raw)
        = new_lines (program (readlines raw))).
Proof.
  assert (Hgen : forall lines : list str,
             file_lines lines -> no_returns lines ->
             file_lines (new_lines (program lines))
             /\ no_returns (new_lines (program lines))
             /\ readlines (writelines os (new_lines (program lines)))
                = new_lines (program lines)).
  { intros lines Hfl Hno.
    destruct (program_lines_kept Hfl Hno) as [Hfl' Hno'].
    split; [exact Hfl'|]. split; [exact Hno'|].
    now apply readlines_writelines. }
  split; [exact Hgen|].
  intros raw. unfold rewritten.
  destruct (readlines_spec raw) as (Hfl & Hno & _).
  now apply Hgen.
Qed.

(** X10.  A file in which no file line finds its candidate path is
    written back with its text unchanged and its line ends turned into
    those of the host; if its line ends are those of the host already,
    it is written back character for character.  In every case the
    text of the file after the run, read with universal newlines, is at
    least as long as the text before. *)
Theorem text_written_back :
  forall raw : str,
    ((forall before line after filename,
        readlines raw = before ++ line :: after ->
        classify line = FileLine filename ->
        exists_ fs (full_path (dir_stack (run initial before)) line filename)
        = false) ->
     rewritten os str_lower str_upper fs root_dir raw
     = to_linesep os (universal raw)
     /\ (forall text,
           ~ In carriage_return text -> raw = to_linesep os text ->
           rewritten os str_lower str_upper fs root_dir raw = raw))
    /\ length (universal raw)
       <= length (universal
                    (rewritten os str_lower str_upper fs root_dir raw)).
Proof.
  intros raw. split.
  - intros Hnone.
    assert (Hsame : rewritten os str_lower str_upper fs root_dir raw
                    = to_linesep os (universal raw)).
    { unfold rewritten, main. simpl new_lines.
      rewrite (@run_unchanged (readlines raw) initial Hnone). simpl.
      unfold writelines, readlines. now rewrite split_concat. }
    split; [exact Hsame|].
    intros text Hno ->. rewrite Hsame.
    now rewrite universal_to_linesep.
  - destruct (readlines_spec raw) as (Hfl & Hno & Hcat).
    destruct (program_lines_kept Hfl Hno) as [_ Hno'].
    unfold rewritten, writelines.
    rewrite universal_to_linesep by now apply no_returns_concat.
    destruct (run_grows (readlines raw) initial) as (outs & Hn & Hlen).
    unfold main. simpl new_lines. rewrite Hn. simpl.
    rewrite <- Hcat. exact Hlen.
Qed.

End LinesWritten.

Section WrittenRuns.

Local Ltac not_in :=
  vm_compute; intros H;
  repeat (destruct H as [H|H]; [discriminate|]); exact H.

Lemma read_write_round_trip_witness :
  let lines := [ln "- **core/**"; lit "  - User.java — model"] in
  readlines (writelines nt lines) = lines
  /\ writelines nt (readlines (to_linesep nt (concat lines)))
     = to_linesep nt (concat lines).
Proof.
  intros lines.
  destruct (read_write_round_trip nt) as (_ & Hlines & Htext).
  split.
  - apply Hlines.
    + simpl. split.
      * exists (lit "- **core/**"). split; [reflexivity|not_in].
      * right. split; [discriminate|not_in].
    + repeat constructor; not_in.
  - apply Htext. not_in.
Defined.

Lemma written_lines_read_back_witness :
  let fs := only (order_java nt) RegularFile in
  let out :=
    new_lines (main nt lower_ascii upper_ascii fs (lit "root") nested) in
  out = nested_linked
  /\ file_lines out /\ no_returns out
  /\ readlines (writelines nt out) = out.
Proof.
  intros fs out. split; [reflexivity|].
  apply (proj1 (@written_lines_read_back nt lower_ascii upper_ascii fs
                  (lit "root")) nested).
  - simpl. split; [|split; [|left]].
    + exists (lit "- **core/**"). split; [reflexivity|not_in].
    + exists (lit "  - **models/**"). split; [reflexivity|not_in].
    + exists (lit "    - Order.java — entity"). split; [reflexivity|not_in].
  - repeat constructor; not_in.
Defined.

Lemma text_written_back_witness :
  let text := ln "- **core/**" ++ ln "  - ghost.txt — not there" in
  let raw := to_linesep nt text in
  rewritten nt lower_ascii upper_ascii nothing (lit "root") raw = raw
  /\ length (universal raw)
     <= length (universal
                  (rewritten nt lower_ascii upper_ascii nothing (lit "root")
                     raw)).
Proof.
  intros text raw.
  destruct (@text_written_back nt lower_ascii upper_ascii nothing
              (lit "root") raw) as [Hsame Hlen].
  split; [|exact Hlen].
  destruct Hsame as [_ Hraw].
  - intros before line after filename _ _. reflexivity.
  - apply (Hraw text); [not_in|reflexivity].
Defined.

End WrittenRuns.
